(** * cppast: class parser and code generator protocol

    A shallow embedding of

    - [include/cppast/code_generator.hpp]: the [code_generator] base class
      with its virtual hooks and the [output] sentinel object;
    - [src/libclang/class_parser.cpp]: [parse_class_kind], [convert_access],
      [add_access_specifier], [add_base_class] and [detail::parse_cpp_class].

    Virtual member functions are modelled as state transformers over the
    state [B] of the derived generator; libclang is an interface (a type
    class) whose queries are the [clang_*] functions the parser calls. *)

From Stdlib Require Import Ascii String.
From stdpp Require Import gmap strings list.

(** ** Strings as the code uses them *)

Module Str.

(** [std::string::find(char)]: position of the first occurrence, [None]
    for [npos]. *)
Fixpoint find (c : ascii) (s : string) : option nat :=
  match s with
  | EmptyString => None
  | String a rest =>
      if Ascii.eqb a c then Some 0 else option_map S (find c rest)
  end.

(** [std::string::erase(pos, npos)]: keeps the first [pos] characters. *)
Fixpoint erase_from (pos : nat) (s : string) : string :=
  match pos, s with
  | 0, _ => EmptyString
  | S p, String a rest => String a (erase_from p rest)
  | S _, EmptyString => EmptyString
  end.

(** [std::string::empty()]. *)
Definition empty (s : string) : bool :=
  match s with EmptyString => true | String _ _ => false end.

(** Number of occurrences of a character. *)
Fixpoint count (c : ascii) (s : string) : nat :=
  match s with
  | EmptyString => 0
  | String a rest => (if Ascii.eqb a c then 1 else 0) + count c rest
  end.

(** The end-of-line character and the two literals the base class writes. *)
Definition nl : ascii := "010"%char.
Definition newline : string := String nl EmptyString.
Definition space : string := " ".

End Str.

(** ** The code generator protocol ([code_generator.hpp]) *)

Module CodeGen.

(** [code_generator::synopsis_options]. *)
Inductive synopsis_options : Set :=
| exclude      (* Exclude the entire entity. *)
| declaration  (* Only write declaration. *)
| definition.  (* Also write definition. *)

Definition synopsis_options_eqb (a b : synopsis_options) : bool :=
  match a, b with
  | exclude, exclude | declaration, declaration | definition, definition => true
  | _, _ => false
  end.

Section Generator.
(** The entity and identity types come from [cpp_entity.hpp] and
    [cpp_entity_ref.hpp]; the protocol only passes them through. *)
Context {cpp_entity cpp_entity_id : Type}.

(** A class derived from [code_generator], over its own state [B].
    The three pure virtual functions are mandatory; every other virtual
    function is either overridden ([Some]) or inherited ([None]). *)
Record code_generator (B : Type) : Type := {
  impl_do_indent : B -> B;
  impl_do_unindent : B -> B;
  impl_do_write_token_seq : string -> B -> B;
  override_on_container_begin : option (cpp_entity -> B -> synopsis_options * B);
  override_on_container_end : option (cpp_entity -> B -> B);
  override_on_leaf : option (cpp_entity -> B -> synopsis_options * B);
  override_do_write_keyword : option (string -> B -> B);
  override_do_write_identifier : option (string -> B -> B);
  override_do_write_reference : option (list cpp_entity_id -> string -> B -> B);
  override_do_write_punctuation : option (string -> B -> B);
  override_do_write_str_literal : option (string -> B -> B);
  override_do_write_int_literal : option (string -> B -> B);
  override_do_write_float_literal : option (string -> B -> B);
  override_do_write_preprocessor : option (string -> B -> B);
  override_do_write_newline : option (B -> B);
  override_do_write_whitespace : option (B -> B)
}.

Section Dispatch.
Context {B : Type} (g : code_generator B).

(** Virtual dispatch: the override when there is one, the body of the
    base class otherwise. *)
Definition on_container_begin (e : cpp_entity) (st : B) : synopsis_options * B :=
  match override_on_container_begin B g with
  | Some f => f e st
  | None => (definition, st)
  end.

Definition on_container_end (e : cpp_entity) (st : B) : B :=
  match override_on_container_end B g with
  | Some f => f e st
  | None => st
  end.

Definition on_leaf (e : cpp_entity) (st : B) : synopsis_options * B :=
  match override_on_leaf B g with
  | Some f => f e st
  | None => (definition, st)
  end.

Definition do_indent : B -> B := impl_do_indent B g.
Definition do_unindent : B -> B := impl_do_unindent B g.
Definition do_write_token_seq (tokens : string) : B -> B :=
  impl_do_write_token_seq B g tokens.

Definition do_write_keyword (keyword : string) (st : B) : B :=
  match override_do_write_keyword B g with
  | Some f => f keyword st
  | None => do_write_token_seq keyword st
  end.

Definition do_write_identifier (identifier : string) (st : B) : B :=
  match override_do_write_identifier B g with
  | Some f => f identifier st
  | None => do_write_token_seq identifier st
  end.

Definition do_write_reference (id : list cpp_entity_id) (name : string) (st : B) : B :=
  match override_do_write_reference B g with
  | Some f => f id name st
  | None => do_write_token_seq name st
  end.

Definition do_write_punctuation (punct : string) (st : B) : B :=
  match override_do_write_punctuation B g with
  | Some f => f punct st
  | None => do_write_token_seq punct st
  end.

Definition do_write_str_literal (str : string) (st : B) : B :=
  match override_do_write_str_literal B g with
  | Some f => f str st
  | None => do_write_token_seq str st
  end.

Definition do_write_int_literal (str : string) (st : B) : B :=
  match override_do_write_int_literal B g with
  | Some f => f str st
  | None => do_write_token_seq str st
  end.

Definition do_write_float_literal (str : string) (st : B) : B :=
  match override_do_write_float_literal B g with
  | Some f => f str st
  | None => do_write_token_seq str st
  end.

Definition do_write_preprocessor (punct : string) (st : B) : B :=
  match override_do_write_preprocessor B g with
  | Some f => f punct st
  | None => do_write_token_seq punct st
  end.

Definition do_write_newline (st : B) : B :=
  match override_do_write_newline B g with
  | Some f => f st
  | None => do_write_token_seq Str.newline st
  end.

Definition do_write_whitespace (st : B) : B :=
  match override_do_write_whitespace B g with
  | Some f => f st
  | None => do_write_token_seq Str.space st
  end.
End Dispatch.

(** What can be streamed into an [output] object: one constructor per
    overload of [operator<<]. *)
Inductive streamed : Type :=
| keyword (s : string)
| identifier (s : string)
| entity_ref (id : list cpp_entity_id) (name : string)
| punctuation (s : string)
| string_literal (s : string)
| int_literal (s : string)
| float_literal (s : string)
| preprocessor_token (s : string)
| token_seq (s : string)
| newl
| whitespace.

(** The characters an item stands for. *)
Definition streamed_text (x : streamed) : string :=
  match x with
  | keyword s | identifier s | entity_ref _ s | punctuation s
  | string_literal s | int_literal s | float_literal s
  | preprocessor_token s | token_seq s => s
  | newl => Str.newline
  | whitespace => Str.space
  end.

(** [code_generator::output]: the generator, the entity when it is a
    container, and the options the hook returned. *)
Record output (B : Type) : Type := {
  gen_ : code_generator B;
  e_ : option cpp_entity;
  options_ : synopsis_options
}.

Section Output.
Context {B : Type}.

(** The constructor calls [on_container_begin] or [on_leaf]. *)
Definition output_ctor (gen : code_generator B) (e : cpp_entity)
           (is_container : bool) (st : B) : output B * B :=
  let '(opts, st') :=
    if is_container then on_container_begin gen e st else on_leaf gen e st in
  ({| gen_ := gen;
      e_ := if is_container then Some e else None;
      options_ := opts |}, st').

(** [explicit operator bool]. *)
Definition operator_bool (o : output B) : bool :=
  negb (synopsis_options_eqb (options_ B o) exclude).

Definition generate_definition (o : output B) : bool :=
  synopsis_options_eqb (options_ B o) definition.

(** The destructor. *)
Definition output_dtor (o : output B) (st : B) : B :=
  match operator_bool o, e_ B o with
  | true, Some e => on_container_end (gen_ B o) e st
  | _, _ => st
  end.

Definition indent (o : output B) (print_newline : bool) (st : B) : B :=
  if operator_bool o then
    let st1 := do_indent (gen_ B o) st in
    if print_newline then do_write_newline (gen_ B o) st1 else st1
  else st.

Definition unindent (o : output B) (st : B) : B :=
  if operator_bool o then do_unindent (gen_ B o) st else st.

(** The overloads of [operator<<]. *)
Definition shl (o : output B) (x : streamed) (st : B) : B :=
  if operator_bool o then
    match x with
    | keyword k => do_write_keyword (gen_ B o) k st
    | identifier ident => do_write_identifier (gen_ B o) ident st
    | entity_ref id name => do_write_reference (gen_ B o) id name st
    | punctuation punct => do_write_punctuation (gen_ B o) punct st
    | string_literal lit => do_write_str_literal (gen_ B o) lit st
    | int_literal lit => do_write_int_literal (gen_ B o) lit st
    | float_literal lit => do_write_float_literal (gen_ B o) lit st
    | preprocessor_token tok => do_write_preprocessor (gen_ B o) tok st
    | token_seq seq => do_write_token_seq (gen_ B o) seq st
    | newl => do_write_newline (gen_ B o) st
    | whitespace => do_write_whitespace (gen_ B o) st
    end
  else st.

(** One use of an [output] object by the code that renders an entity. *)
Inductive operation : Type :=
| op_shl (x : streamed)
| op_indent (print_newline : bool)
| op_unindent.

Definition run_operation (o : output B) (op : operation) (st : B) : B :=
  match op with
  | op_shl x => shl o x st
  | op_indent print_newline => indent o print_newline st
  | op_unindent => unindent o st
  end.

Definition run_operations (o : output B) (ops : list operation) (st : B) : B :=
  fold_left (fun acc op => run_operation o op acc) ops st.

(** The whole life of an [output] object: construction, the given
    operations, destruction. *)
Definition output_lifetime (gen : code_generator B) (e : cpp_entity)
           (is_container : bool) (ops : list operation) (st : B) : B :=
  let '(o, st1) := output_ctor gen e is_container st in
  output_dtor o (run_operations o ops st1).
End Output.

(** *** Generators used below *)

(** A generator that overrides nothing: only the pure virtuals. *)
Definition base_generator {B : Type} (indent_impl unindent_impl : B -> B)
           (token_seq_impl : string -> B -> B) : code_generator B :=
  {| impl_do_indent := indent_impl;
     impl_do_unindent := unindent_impl;
     impl_do_write_token_seq := token_seq_impl;
     override_on_container_begin := None;
     override_on_container_end := None;
     override_on_leaf := None;
     override_do_write_keyword := None;
     override_do_write_identifier := None;
     override_do_write_reference := None;
     override_do_write_punctuation := None;
     override_do_write_str_literal := None;
     override_do_write_int_literal := None;
     override_do_write_float_literal := None;
     override_do_write_preprocessor := None;
     override_do_write_newline := None;
     override_do_write_whitespace := None |}.

(** The minimal backend: the token sequence primitive, indentation and
    newline emission. *)
Definition minimal_generator {B : Type} (indent_impl unindent_impl : B -> B)
           (token_seq_impl : string -> B -> B) (newline_impl : B -> B)
  : code_generator B :=
  {| impl_do_indent := indent_impl;
     impl_do_unindent := unindent_impl;
     impl_do_write_token_seq := token_seq_impl;
     override_on_container_begin := None;
     override_on_container_end := None;
     override_on_leaf := None;
     override_do_write_keyword := None;
     override_do_write_identifier := None;
     override_do_write_reference := None;
     override_do_write_punctuation := None;
     override_do_write_str_literal := None;
     override_do_write_int_literal := None;
     override_do_write_float_literal := None;
     override_do_write_preprocessor := None;
     override_do_write_newline := Some newline_impl;
     override_do_write_whitespace := None |}.

(** A call of a virtual function, as a generator that overrides
    everything and only keeps a log sees it. *)
Inductive call : Type :=
| call_on_container_begin (e : cpp_entity)
| call_on_container_end (e : cpp_entity)
| call_on_leaf (e : cpp_entity)
| call_do_indent
| call_do_unindent
| call_do_write_token_seq (s : string)
| call_do_write_keyword (s : string)
| call_do_write_identifier (s : string)
| call_do_write_reference (id : list cpp_entity_id) (s : string)
| call_do_write_punctuation (s : string)
| call_do_write_str_literal (s : string)
| call_do_write_int_literal (s : string)
| call_do_write_float_literal (s : string)
| call_do_write_preprocessor (s : string)
| call_do_write_newline
| call_do_write_whitespace.

(** The logging generator; [policy] is what its two hooks return. *)
Definition recorder (policy : cpp_entity -> synopsis_options)
  : code_generator (list call) :=
  {| impl_do_indent := fun log => log ++ [call_do_indent];
     impl_do_unindent := fun log => log ++ [call_do_unindent];
     impl_do_write_token_seq := fun s log => log ++ [call_do_write_token_seq s];
     override_on_container_begin :=
       Some (fun e log => (policy e, log ++ [call_on_container_begin e]));
     override_on_container_end :=
       Some (fun e log => log ++ [call_on_container_end e]);
     override_on_leaf :=
       Some (fun e log => (policy e, log ++ [call_on_leaf e]));
     override_do_write_keyword :=
       Some (fun s log => log ++ [call_do_write_keyword s]);
     override_do_write_identifier :=
       Some (fun s log => log ++ [call_do_write_identifier s]);
     override_do_write_reference :=
       Some (fun id s log => log ++ [call_do_write_reference id s]);
     override_do_write_punctuation :=
       Some (fun s log => log ++ [call_do_write_punctuation s]);
     override_do_write_str_literal :=
       Some (fun s log => log ++ [call_do_write_str_literal s]);
     override_do_write_int_literal :=
       Some (fun s log => log ++ [call_do_write_int_literal s]);
     override_do_write_float_literal :=
       Some (fun s log => log ++ [call_do_write_float_literal s]);
     override_do_write_preprocessor :=
       Some (fun s log => log ++ [call_do_write_preprocessor s]);
     override_do_write_newline :=
       Some (fun log => log ++ [call_do_write_newline]);
     override_do_write_whitespace :=
       Some (fun log => log ++ [call_do_write_whitespace]) |}.

(** What the logging generator has seen after the whole life of an
    [output] object. *)
Definition recorded (policy : cpp_entity -> synopsis_options) (e : cpp_entity)
           (is_container : bool) (ops : list operation) : list call :=
  output_lifetime (recorder policy) e is_container ops [].

(** A line counting backend: it appends what it is given to the text
    written so far and counts the calls of [do_write_newline]. *)
Record counted : Type := { text : string; newline_calls : nat }.

Definition line_counter : code_generator counted :=
  minimal_generator
    (fun st => st) (fun st => st)
    (fun tokens st =>
       {| text := text st +:+ tokens; newline_calls := newline_calls st |})
    (fun st =>
       {| text := text st +:+ Str.newline;
          newline_calls := S (newline_calls st) |}).

(** The text holds as many end-of-line characters as [do_write_newline]
    was called. *)
Definition counts_agree (st : counted) : Prop :=
  Str.count Str.nl (text st) = newline_calls st.

(** No character of the item's text is an end-of-line ([newl] itself
    goes through [do_write_newline]). *)
Definition newline_free (x : streamed) : bool :=
  match x with
  | newl => true
  | _ => Nat.eqb (Str.count Str.nl (streamed_text x)) 0
  end.

Definition operation_newline_free (op : @operation) : bool :=
  match op with
  | op_shl x => newline_free x
  | _ => true
  end.
End Generator.

Arguments code_generator : clear implicits.
Arguments output : clear implicits.
Arguments streamed : clear implicits.
Arguments call : clear implicits.

End CodeGen.

(** ** The class parser ([class_parser.cpp]) *)

Module ClassParser.

(** *** What libclang hands over ([clang-c/Index.h]) *)

(** The cursor kinds the parser tells apart; [CXCursor_other] stands for
    every other value of the enumeration. *)
Inductive CXCursorKind : Set :=
| CXCursor_StructDecl
| CXCursor_UnionDecl
| CXCursor_ClassDecl
| CXCursor_ParmDecl
| CXCursor_TemplateTypeParameter
| CXCursor_NonTypeTemplateParameter
| CXCursor_TemplateTemplateParameter
| CXCursor_CXXAccessSpecifier
| CXCursor_CXXBaseSpecifier
| CXCursor_NoDeclFound
| CXCursor_UnexposedAttr
| CXCursor_CXXFinalAttr
| CXCursor_FriendDecl
| CXCursor_other (code : N).

#[global] Instance CXCursorKind_eq_dec : EqDecision CXCursorKind.
Proof. solve_decision. Defined.

Inductive CX_CXXAccessSpecifier : Set :=
| CX_CXXInvalidAccessSpecifier
| CX_CXXPublic
| CX_CXXProtected
| CX_CXXPrivate.

Inductive CXTokenKind : Set :=
| CXToken_Punctuation
| CXToken_Keyword
| CXToken_Identifier
| CXToken_Literal
| CXToken_Comment.

#[global] Instance CXTokenKind_eq_dec : EqDecision CXTokenKind.
Proof. solve_decision. Defined.

(** A token of the cursor's extent: its kind and its spelling. *)
Record token : Set := { token_kind : CXTokenKind; token_spelling : string }.

(** The part of a [detail::token_stream] that is still to be read. *)
Definition token_stream : Set := list token.

(** The queries of libclang the parser uses. [clang_isVirtualBase] and
    [clang_isCursorDefinition] return [unsigned]; the model keeps whether
    the value is nonzero. *)
Class libclang : Type := {
  CXCursor : Type;
  CXType : Type;
  clang_getCursorKind : CXCursor -> CXCursorKind;
  clang_getTemplateCursorKind : CXCursor -> CXCursorKind;
  clang_getSpecializedCursorTemplate : CXCursor -> CXCursor;
  clang_Cursor_isNull : CXCursor -> bool;
  clang_getCursorSemanticParent : CXCursor -> CXCursor;
  clang_getCursorLexicalParent : CXCursor -> CXCursor;
  clang_equalCursors : CXCursor -> CXCursor -> bool;
  clang_getCXXAccessSpecifier : CXCursor -> CX_CXXAccessSpecifier;
  clang_isVirtualBase : CXCursor -> bool;
  clang_isCursorDefinition : CXCursor -> bool;
  clang_isExpression : CXCursorKind -> bool;
  clang_isReference : CXCursorKind -> bool;
  clang_getCursorType : CXCursor -> CXType
}.

(** *** The entity model ([cpp_class.hpp], [cpp_entity_ref.hpp]) *)

Inductive cpp_class_kind : Set := class_t | struct_t | union_t.

Inductive cpp_access_specifier_kind : Set := cpp_public | cpp_protected | cpp_private.

(** An identity is an opaque handle used as the key of the index. *)
Definition cpp_entity_id : Set := N.

(** Modelled from the spec: [cpp_entity_ref] of [cpp_entity_ref.hpp], which
    is not part of the sources: the identity and the display name. *)
Record cpp_entity_ref : Set := { ref_id : cpp_entity_id; ref_name : string }.

(** Modelled from the spec: the macros [DEBUG_UNREACHABLE] and
    [DEBUG_ASSERT] are not part of the sources; reaching the former, or
    failing the latter, is a fault that ends construction. The third fault
    is a token stream that does not hold the token the parser has to
    read. *)
Inductive fault : Set := unreachable_state | assertion_failed | unexpected_token.

Inductive result (A : Type) : Type :=
| ok (a : A)
| fatal (f : fault).
Arguments ok {A} a.
Arguments fatal {A} f.

#[global] Instance result_ret : MRet result := fun A a => ok a.
#[global] Instance result_bind : MBind result :=
  fun A C f m => match m with ok a => f a | fatal e => fatal e end.

(** Modelled from the spec: [to_string(cpp_access_specifier_kind)] of
    [cpp_class.hpp], which is not part of the sources: the spelled
    access-specifier keyword. *)
Definition to_string_access (access : cpp_access_specifier_kind) : string :=
  match access with
  | cpp_public => "public"
  | cpp_protected => "protected"
  | cpp_private => "private"
  end.

Section Entities.
(** Types are parsed by another component; the class parser stores them. *)
Context {cpp_type : Type}.

(** Modelled from the spec: a base class of [cpp_class.hpp], which is not
    part of the sources: name, type, access and whether it is virtual. *)
Record cpp_base_class : Type := {
  base_name : string;
  base_type : cpp_type;
  base_access : cpp_access_specifier_kind;
  base_is_virtual : bool
}.

(** Modelled from the spec: the class entity of [cpp_class.hpp], over the
    type [E] of its children. Each child is kept with the access level in
    effect when it was added. [identity] is the identity the finishing
    operation was given, if any. *)
Record cpp_class_data (E : Type) : Type := {
  class_name : string;
  class_kind : cpp_class_kind;
  is_final : bool;
  base_classes : list cpp_base_class;
  children : list (cpp_access_specifier_kind * E);
  comment : option string;
  is_definition : bool;
  semantic_parent : option cpp_entity_ref;
  identity : option cpp_entity_id
}.

(** Modelled from the spec: the entities of the tree ([cpp_entity.hpp] is
    not part of the sources): classes, and the entities the other parsers
    build, of which the class parser only sees kind and name. *)
#[warnings="-register-all"]
Inductive cpp_entity : Type :=
| cpp_class (c : cpp_class_data cpp_entity)
| cpp_other_entity (kind : CXCursorKind) (name : string).

(** Modelled from the spec: [cpp_class::builder] of [cpp_class.hpp], which
    is not part of the sources: the entity under construction and the
    access level that applies to the children added next. *)
Record builder : Type := {
  b_name : string;
  b_kind : cpp_class_kind;
  b_final : bool;
  b_bases : list cpp_base_class;
  b_children : list (cpp_access_specifier_kind * cpp_entity);
  b_comment : option string;
  b_access : cpp_access_specifier_kind
}.

(** Modelled from the spec: the initial access level is public for struct
    and union, private for class. *)
Definition default_access (kind : cpp_class_kind) : cpp_access_specifier_kind :=
  match kind with
  | class_t => cpp_private
  | struct_t | union_t => cpp_public
  end.

(** Modelled from the spec: the constructor [builder(name, kind)]. *)
Definition builder_new (name : string) (kind : cpp_class_kind) : builder :=
  {| b_name := name; b_kind := kind; b_final := false; b_bases := [];
     b_children := []; b_comment := None; b_access := default_access kind |}.

(** Modelled from the spec: [builder::access_specifier]. *)
Definition builder_access_specifier (b : builder)
           (access : cpp_access_specifier_kind) : builder :=
  {| b_name := b_name b; b_kind := b_kind b; b_final := b_final b;
     b_bases := b_bases b; b_children := b_children b;
     b_comment := b_comment b; b_access := access |}.

(** Modelled from the spec: [builder::base_class]; the order of the bases
    is the order of the calls. *)
Definition builder_base_class (b : builder) (name : string) (type : cpp_type)
           (access : cpp_access_specifier_kind) (is_virtual : bool) : builder :=
  {| b_name := b_name b; b_kind := b_kind b; b_final := b_final b;
     b_bases := b_bases b ++
       [{| base_name := name; base_type := type; base_access := access;
           base_is_virtual := is_virtual |}];
     b_children := b_children b; b_comment := b_comment b;
     b_access := b_access b |}.

(** Modelled from the spec: [builder::is_final]. *)
Definition builder_is_final (b : builder) : builder :=
  {| b_name := b_name b; b_kind := b_kind b; b_final := true;
     b_bases := b_bases b; b_children := b_children b;
     b_comment := b_comment b; b_access := b_access b |}.

(** Modelled from the spec: [builder::add_child]; children keep the order
    in which they are met. *)
Definition builder_add_child (b : builder) (e : cpp_entity) : builder :=
  {| b_name := b_name b; b_kind := b_kind b; b_final := b_final b;
     b_bases := b_bases b; b_children := b_children b ++ [(b_access b, e)];
     b_comment := b_comment b; b_access := b_access b |}.

(** Modelled from the spec: what [comments.match(builder.get(), cur)]
    leaves on the entity under construction; the comment matcher is not
    part of the sources. *)
Definition builder_set_comment (b : builder) (c : option string) : builder :=
  {| b_name := b_name b; b_kind := b_kind b; b_final := b_final b;
     b_bases := b_bases b; b_children := b_children b;
     b_comment := c; b_access := b_access b |}.

(** Modelled from the spec: the entity a finishing operation hands over,
    a definition with the children gathered so far, or a declaration
    without children. *)
Definition finished_definition (b : builder) (id : option cpp_entity_id)
           (sp : option cpp_entity_ref) : cpp_entity :=
  cpp_class
    {| class_name := b_name b; class_kind := b_kind b; is_final := b_final b;
       base_classes := b_bases b; children := b_children b;
       comment := b_comment b; is_definition := true;
       semantic_parent := sp; identity := id |}.

Definition finished_declaration (b : builder) (id : cpp_entity_id) : cpp_entity :=
  cpp_class
    {| class_name := b_name b; class_kind := b_kind b; is_final := b_final b;
       base_classes := b_bases b; children := [];
       comment := b_comment b; is_definition := false;
       semantic_parent := None; identity := Some id |}.

(** Modelled from the spec: [builder::finish(idx, id, semantic_parent)]
    registers the entity under [id] in the symbol table. *)
Definition finish_idx (b : builder) (idx : gmap cpp_entity_id cpp_entity)
           (id : cpp_entity_id) (sp : option cpp_entity_ref)
  : cpp_entity * gmap cpp_entity_id cpp_entity :=
  let e := finished_definition b (Some id) sp in (e, <[id := e]> idx).

(** Modelled from the spec: [builder::finish(semantic_parent)], the
    overload that is given neither the index nor an identity. *)
Definition finish (b : builder) (sp : option cpp_entity_ref) : cpp_entity :=
  finished_definition b None sp.

(** Modelled from the spec: [builder::finish_declaration(id)] produces an
    entity that is not a definition and has no children. *)
Definition finish_declaration (b : builder) (id : cpp_entity_id) : cpp_entity :=
  finished_declaration b id.
End Entities.

Arguments cpp_base_class : clear implicits.
Arguments cpp_class_data : clear implicits.
Arguments cpp_entity : clear implicits.
Arguments builder : clear implicits.

(** *** The helpers of [parse_functions.hpp] and [libclang_visitor.hpp] *)

Section Parser.
Context {cpp_type : Type} {LC : libclang}.

(** The collaborators that are declared in headers outside the sources and
    whose results the class parser only passes on: the cursor's name, its
    identity, its tokens ([detail::tokenizer] and [detail::token_stream]),
    its immediate children in source order ([detail::visit_children]),
    attribute skipping, the spelling of a token range, the type parser,
    the entity parser (which shares the index), the comment matcher, what
    [finish_declaration(idx, id)] does to the index, and the configuration
    macro [CPPAST_CINDEX_HAS_FRIEND]. *)
Class parse_functions : Type := {
  CPPAST_CINDEX_HAS_FRIEND : bool;
  get_cursor_name : CXCursor -> string;
  get_entity_id : CXCursor -> cpp_entity_id;
  cursor_tokens : CXCursor -> token_stream;
  cursor_children : CXCursor -> list CXCursor;
  skip_attribute : token_stream -> token_stream;
  to_string : token_stream -> string;
  parse_type : CXCursor -> CXType -> cpp_type;
  parse_entity : gmap cpp_entity_id (cpp_entity cpp_type) -> CXCursor ->
                 option (cpp_entity cpp_type) * gmap cpp_entity_id (cpp_entity cpp_type);
  comments_match : CXCursor -> option string;
  register_forward_declaration :
    gmap cpp_entity_id (cpp_entity cpp_type) -> cpp_entity_id ->
    cpp_entity cpp_type -> gmap cpp_entity_id (cpp_entity cpp_type)
}.

Context {PF : parse_functions}.

(** Modelled from the spec: [detail::skip_if] of [parse_functions.hpp],
    which is not part of the sources: the current token is consumed when
    its spelling is exactly [str]. *)
Definition skip_if (stream : token_stream) (str : string) : bool * token_stream :=
  match stream with
  | t :: rest =>
      if String.eqb (token_spelling t) str then (true, rest) else (false, stream)
  | [] => (false, stream)
  end.

(** Modelled from the spec: [detail::skip] of [parse_functions.hpp], which
    is not part of the sources: the current token has to be [str] and is
    consumed. *)
Definition skip (stream : token_stream) (str : string) : result token_stream :=
  match skip_if stream str with
  | (true, rest) => ok rest
  | (false, _) => fatal unexpected_token
  end.

(** Modelled from the spec: [token_stream::bump] advances one token.
    Neither the sources nor the spec say what becomes of a scan that has
    run past the last token; the model stops it there with a fault, which
    keeps the scan a total function. *)
Definition bump (stream : token_stream) : result token_stream :=
  match stream with
  | _ :: rest => ok rest
  | [] => fatal unexpected_token
  end.

(** Modelled from the spec: [detail::append_scope] of
    [parse_functions.hpp], which is not part of the sources: a scope
    segment is an identifier followed by the scope separator; it is
    consumed and appended to the scope string, segments being joined by
    the separator. *)
Definition append_scope (stream : token_stream) (scope : string)
  : bool * token_stream * string :=
  match stream with
  | t :: sep :: rest =>
      if bool_decide (token_kind t = CXToken_Identifier)
         && String.eqb (token_spelling sep) "::"
      then (true, rest,
            if Str.empty scope then token_spelling t
            else scope +:+ "::" +:+ token_spelling t)
      else (false, stream, scope)
  | _ => (false, stream, scope)
  end.

(** Modelled from the spec: [builder::finish_declaration(idx, id)]: the
    same entity as the other overload, and the index as
    [register_forward_declaration] leaves it. *)
Definition finish_declaration_idx (b : builder cpp_type)
           (idx : gmap cpp_entity_id (cpp_entity cpp_type)) (id : cpp_entity_id)
  : cpp_entity cpp_type * gmap cpp_entity_id (cpp_entity cpp_type) :=
  let e := finish_declaration b id in (e, register_forward_declaration idx id e).

(** *** [class_parser.cpp] *)

(** The kind [parse_class_kind] switches on: the template cursor kind, or
    the cursor kind when there is none. *)
Definition switched_kind (cur : CXCursor) : CXCursorKind :=
  let kind := clang_getTemplateCursorKind cur in
  if bool_decide (kind = CXCursor_NoDeclFound) then clang_getCursorKind cur
  else kind.

Definition parse_class_kind (cur : CXCursor) : result cpp_class_kind :=
  match switched_kind cur with
  | CXCursor_ClassDecl => ok class_t
  | CXCursor_StructDecl => ok struct_t
  | CXCursor_UnionDecl => ok union_t
  | _ => fatal unreachable_state
  end.

Definition make_class_builder (cur : CXCursor) : result (builder cpp_type) :=
  kind ← parse_class_kind cur;
  let name := get_cursor_name cur in
  ok (builder_new name kind).

Definition convert_access (cur : CXCursor) : result cpp_access_specifier_kind :=
  match clang_getCXXAccessSpecifier cur with
  | CX_CXXInvalidAccessSpecifier => fatal unreachable_state
  | CX_CXXPublic => ok cpp_public
  | CX_CXXProtected => ok cpp_protected
  | CX_CXXPrivate => ok cpp_private
  end.

(** [DEBUG_ASSERT(cond, ...)]. *)
Definition debug_assert (cond : bool) : result unit :=
  if cond then ok () else fatal assertion_failed.

Definition add_access_specifier (b : builder cpp_type) (cur : CXCursor)
  : result (builder cpp_type) :=
  _ ← debug_assert (bool_decide (clang_getCursorKind cur = CXCursor_CXXAccessSpecifier));
  access ← convert_access cur;
  ok (builder_access_specifier b access).

Definition add_base_class (b : builder cpp_type) (cur class_cur : CXCursor)
  : result (builder cpp_type) :=
  _ ← debug_assert (bool_decide (clang_getCursorKind cur = CXCursor_CXXBaseSpecifier));
  access ← convert_access cur;
  let is_virtual := clang_isVirtualBase cur in
  let stream := cursor_tokens cur in
  (* [<attribute>] [virtual] [<access>] <name> *)
  let stream := skip_attribute stream in
  stream ← (if is_virtual then skip stream "virtual" else ok stream);
  let stream := (skip_if stream (to_string_access access)).2 in
  let name := to_string stream in
  let type := parse_type class_cur (clang_getCursorType cur) in
  ok (builder_base_class b name type access is_virtual).

(** The name the scan looks for: the cursor's name up to the first ['<']. *)
Definition unqualified_name (cur : CXCursor) : string :=
  let name := get_cursor_name cur in
  match Str.find "<" name with
  | Some pos => Str.erase_from pos name
  | None => name
  end.

(** The loop [while (!skip_if(stream, name)) { if (!append_scope(stream,
    scope)) stream.bump(); }], with [fuel] bounding the iterations. *)
Fixpoint scope_loop (fuel : nat) (name : string) (stream : token_stream)
         (scope : string) : option (result (token_stream * string)) :=
  match fuel with
  | 0 => None
  | S fuel' =>
      match skip_if stream name with
      | (true, stream1) => Some (ok (stream1, scope))
      | (false, stream1) =>
          match append_scope stream1 scope with
          | (true, stream2, scope2) => scope_loop fuel' name stream2 scope2
          | (false, stream2, scope2) =>
              match bump stream2 with
              | ok stream3 => scope_loop fuel' name stream3 scope2
              | fatal f => Some (fatal f)
              end
          end
      end
  end.

(** Every iteration that does not stop consumes a token, so one more
    iteration than there are tokens is enough. *)
Definition scope_scan (name : string) (stream : token_stream) (scope : string)
  : result (token_stream * string) :=
  match scope_loop (S (length stream)) name stream scope with
  | Some r => r
  | None => fatal unexpected_token
  end.

(** The block of [parse_cpp_class] for an out-of-line definition. *)
Definition out_of_line_semantic_parent (cur : CXCursor)
  : result (option cpp_entity_ref) :=
  let stream := cursor_tokens cur in
  let name := unqualified_name cur in
  '(_, scope) ← scope_scan name stream "";
  if negb (Str.empty scope) then
    ok (Some {| ref_id := get_entity_id (clang_getCursorSemanticParent cur);
                ref_name := scope |})
  else ok None.

(** The callback given to [detail::visit_children]. *)
Definition visit_child (cur : CXCursor)
           (acc : builder cpp_type * gmap cpp_entity_id (cpp_entity cpp_type))
           (child : CXCursor)
  : result (builder cpp_type * gmap cpp_entity_id (cpp_entity cpp_type)) :=
  let '(b, idx) := acc in
  let kind := clang_getCursorKind child in
  if bool_decide (kind = CXCursor_CXXAccessSpecifier) then
    b' ← add_access_specifier b child; ok (b', idx)
  else if bool_decide (kind = CXCursor_CXXBaseSpecifier) then
    b' ← add_base_class b child cur; ok (b', idx)
  else if bool_decide (kind = CXCursor_CXXFinalAttr) then
    ok (builder_is_final b, idx)
  else if bool_decide (kind = CXCursor_TemplateTypeParameter)
          || bool_decide (kind = CXCursor_NonTypeTemplateParameter)
          || bool_decide (kind = CXCursor_TemplateTemplateParameter)
          || bool_decide (kind = CXCursor_ParmDecl)
          || clang_isExpression kind || clang_isReference kind
          || bool_decide (kind = CXCursor_UnexposedAttr) then
    ok (b, idx)
  else
    match parse_entity idx child with
    | (Some entity, idx') => ok (builder_add_child b entity, idx')
    | (None, idx') => ok (b, idx')
    end.

(** [detail::visit_children(cur, callback)]: the callback on each
    immediate child, in source order. *)
Fixpoint visit_children (cur : CXCursor) (childs : list CXCursor)
         (acc : builder cpp_type * gmap cpp_entity_id (cpp_entity cpp_type))
  : result (builder cpp_type * gmap cpp_entity_id (cpp_entity cpp_type)) :=
  match childs with
  | [] => ok acc
  | child :: rest => acc' ← visit_child cur acc child; visit_children cur rest acc'
  end.

Definition is_templated (cur : CXCursor) : bool :=
  negb (bool_decide (clang_getTemplateCursorKind cur = CXCursor_NoDeclFound))
  || negb (clang_Cursor_isNull (clang_getSpecializedCursorTemplate cur)).

Definition is_friend (parent_cur : CXCursor) : bool :=
  if CPPAST_CINDEX_HAS_FRIEND
  then bool_decide (clang_getCursorKind parent_cur = CXCursor_FriendDecl)
  else false.

(** The part of [parse_cpp_class] guarded by [if (!is_friend)]: it yields
    the builder, the optional semantic parent and the index. *)
Definition parse_members (idx : gmap cpp_entity_id (cpp_entity cpp_type))
           (b : builder cpp_type) (cur : CXCursor)
  : result (builder cpp_type * option cpp_entity_ref
            * gmap cpp_entity_id (cpp_entity cpp_type)) :=
  semantic_parent ←
    (if negb (clang_equalCursors (clang_getCursorSemanticParent cur)
                                 (clang_getCursorLexicalParent cur))
     then out_of_line_semantic_parent cur   (* out-of-line definition *)
     else ok None);
  let b := builder_set_comment b (comments_match cur) in
  '(b, idx) ← visit_children cur (cursor_children cur) (b, idx);
  ok (b, semantic_parent, idx).

(** [detail::parse_cpp_class]: the finished entity and the index. *)
Definition parse_cpp_class (idx : gmap cpp_entity_id (cpp_entity cpp_type))
           (cur parent_cur : CXCursor)
  : result (cpp_entity cpp_type * gmap cpp_entity_id (cpp_entity cpp_type)) :=
  let is_templated := is_templated cur in
  let is_friend := is_friend parent_cur in
  b ← make_class_builder cur;
  '(b, semantic_parent, idx) ←
    (if negb is_friend then parse_members idx b cur else ok (b, None, idx));
  if negb is_friend && clang_isCursorDefinition cur then
    if is_templated then ok (finish b semantic_parent, idx)
    else ok (finish_idx b idx (get_entity_id cur) semantic_parent)
  else
    if is_templated then ok (finish_declaration b (get_entity_id cur), idx)
    else ok (finish_declaration_idx b idx (get_entity_id cur)).

(** The index as the traversal of the members leaves it, before the
    entity is finished. *)
Definition index_after_members (idx : gmap cpp_entity_id (cpp_entity cpp_type))
           (cur : CXCursor) : gmap cpp_entity_id (cpp_entity cpp_type) :=
  match b ← make_class_builder cur; parse_members idx b cur with
  | ok (_, _, idx') => idx'
  | fatal _ => idx
  end.

(** *** What the provider promises *)

Definition is_class_kind (kind : CXCursorKind) : bool :=
  match kind with
  | CXCursor_ClassDecl | CXCursor_StructDecl | CXCursor_UnionDecl => true
  | _ => false
  end.

Definition is_valid_access (access : CX_CXXAccessSpecifier) : bool :=
  match access with
  | CX_CXXInvalidAccessSpecifier => false
  | _ => true
  end.

(** The tokens of the scope segments [s1 :: s2 :: ...]. *)
Definition segment_tokens (segs : list string) : token_stream :=
  flat_map (fun s => [ {| token_kind := CXToken_Identifier; token_spelling := s |};
                       {| token_kind := CXToken_Punctuation; token_spelling := "::" |} ])
           segs.

End Parser.

(** *** Reading a finished entity *)

Section Accessors.
Context {cpp_type : Type}.

Definition entity_is_definition (e : cpp_entity cpp_type) : option bool :=
  match e with
  | cpp_class c => Some (is_definition _ c)
  | cpp_other_entity _ _ => None
  end.

Definition entity_children (e : cpp_entity cpp_type)
  : list (cpp_access_specifier_kind * cpp_entity cpp_type) :=
  match e with
  | cpp_class c => children _ c
  | cpp_other_entity _ _ => []
  end.

Definition entity_semantic_parent (e : cpp_entity cpp_type) : option cpp_entity_ref :=
  match e with
  | cpp_class c => semantic_parent _ c
  | cpp_other_entity _ _ => None
  end.

Definition entity_base_classes (e : cpp_entity cpp_type) : list (cpp_base_class cpp_type) :=
  match e with
  | cpp_class c => base_classes _ c
  | cpp_other_entity _ _ => []
  end.
End Accessors.

End ClassParser.

(** ** A scripted provider

    Cursors given as data, to run the parser on synthetic input. *)

Module Scripted.
Import ClassParser.
#[local] Open Scope N_scope.

Record facts : Set := {
  handle : N;
  kind : CXCursorKind;
  template_kind : CXCursorKind;
  specializes : bool;
  access : CX_CXXAccessSpecifier;
  virtual_base : bool;
  defines : bool;
  name : string;
  usr : cpp_entity_id;
  tokens : token_stream;
  doc : option string
}.

#[warnings="-register-all"]
Inductive cursor : Set :=
| null
| node (f : facts) (semantic lexical : cursor) (childs : list cursor).

Definition no_facts : facts :=
  {| handle := 0; kind := CXCursor_other 70; template_kind := CXCursor_NoDeclFound;
     specializes := false; access := CX_CXXInvalidAccessSpecifier;
     virtual_base := false; defines := false; name := ""; usr := 0;
     tokens := []; doc := None |}.

Definition facts_of (c : cursor) : facts :=
  match c with
  | null => no_facts
  | node f _ _ _ => f
  end.

Definition equal_cursors (a b : cursor) : bool :=
  match a, b with
  | null, null => true
  | node f _ _ _, node g _ _ _ => N.eqb (handle f) (handle g)
  | _, _ => false
  end.

#[global] Instance scripted_libclang : libclang := {|
  CXCursor := cursor;
  CXType := string;
  clang_getCursorKind c := kind (facts_of c);
  clang_getTemplateCursorKind c := template_kind (facts_of c);
  clang_getSpecializedCursorTemplate c :=
    if specializes (facts_of c) then c else null;
  clang_Cursor_isNull c := match c with null => true | _ => false end;
  clang_getCursorSemanticParent c :=
    match c with null => null | node _ sem _ _ => sem end;
  clang_getCursorLexicalParent c :=
    match c with null => null | node _ _ lex _ => lex end;
  clang_equalCursors := equal_cursors;
  clang_getCXXAccessSpecifier c := access (facts_of c);
  clang_isVirtualBase c := virtual_base (facts_of c);
  clang_isCursorDefinition c := defines (facts_of c);
  clang_isExpression k :=
    match k with
    | CXCursor_other code => (100 <=? code)%N && (code <? 200)%N
    | _ => false
    end;
  clang_isReference k :=
    match k with
    | CXCursor_CXXBaseSpecifier => true
    | CXCursor_other code => (40 <=? code)%N && (code <=? 50)%N
    | _ => false
    end;
  clang_getCursorType c := name (facts_of c)
|}.

Definition spelled (s : string) (t : token) : bool := String.eqb (token_spelling t) s.

(** Drops the tokens up to and including the first ["]" "]"]. *)
Fixpoint after_attribute (stream : token_stream) : token_stream :=
  match stream with
  | [] => []
  | t :: rest =>
      match rest with
      | u :: rest' =>
          if spelled "]" t && spelled "]" u then rest' else after_attribute rest
      | [] => []
      end
  end.

(** A leading ["[" "[" ... "]" "]"] is an attribute. *)
Definition scripted_skip_attribute (stream : token_stream) : token_stream :=
  match stream with
  | t :: u :: rest =>
      if spelled "[" t && spelled "[" u then after_attribute rest else stream
  | _ => stream
  end.

Definition spell (stream : token_stream) : string :=
  String.concat "" (map token_spelling stream).

#[global] Instance scripted_functions : parse_functions (cpp_type := string) := {|
  CPPAST_CINDEX_HAS_FRIEND := true;
  get_cursor_name c := name (facts_of c);
  get_entity_id c := usr (facts_of c);
  cursor_tokens c := tokens (facts_of c);
  cursor_children c := match c with null => [] | node _ _ _ cs => cs end;
  skip_attribute := scripted_skip_attribute;
  to_string := spell;
  parse_type _ t := t;
  parse_entity idx c :=
    let e := cpp_other_entity (kind (facts_of c)) (name (facts_of c)) in
    (Some e, <[usr (facts_of c) := e]> idx);
  comments_match c := doc (facts_of c);
  register_forward_declaration idx id e :=
    match idx !! id with
    | Some _ => idx
    | None => <[id := e]> idx
    end
|}.

Definition ident (s : string) : token :=
  {| token_kind := CXToken_Identifier; token_spelling := s |}.
Definition punct (s : string) : token :=
  {| token_kind := CXToken_Punctuation; token_spelling := s |}.
Definition kw (s : string) : token :=
  {| token_kind := CXToken_Keyword; token_spelling := s |}.

(** The translation unit and a namespace-like parent [A::B]. *)
Definition tu : CXCursor :=
  node {| handle := 1; kind := CXCursor_other 300; template_kind := CXCursor_NoDeclFound;
          specializes := false; access := CX_CXXInvalidAccessSpecifier;
          virtual_base := false; defines := true; name := "tu"; usr := 1;
          tokens := []; doc := None |} null null [].

Definition scope_B : CXCursor :=
  node {| handle := 2; kind := CXCursor_ClassDecl; template_kind := CXCursor_NoDeclFound;
          specializes := false; access := CX_CXXInvalidAccessSpecifier;
          virtual_base := false; defines := true; name := "B"; usr := 20;
          tokens := []; doc := None |} tu tu [].

(** A class cursor named [nm] with the given tokens, parents and children. *)
Definition class_cursor (h : N) (k tk : CXCursorKind) (nm : string) (def : bool)
           (toks : token_stream) (sem lex : CXCursor) (cs : list CXCursor) : CXCursor :=
  node {| handle := h; kind := k; template_kind := tk; specializes := false;
          access := CX_CXXInvalidAccessSpecifier; virtual_base := false;
          defines := def; name := nm; usr := 100 + h; tokens := toks;
          doc := None |} sem lex cs.

(** A child cursor of kind [k] with an access value. *)
Definition member_cursor (h : N) (k : CXCursorKind) (a : CX_CXXAccessSpecifier)
           (virt : bool) (nm : string) (toks : token_stream) : CXCursor :=
  node {| handle := h; kind := k; template_kind := CXCursor_NoDeclFound;
          specializes := false; access := a; virtual_base := virt;
          defines := false; name := nm; usr := 100 + h; tokens := toks;
          doc := None |} null null [].

(** [A :: B :: Foo ( int )], with semantic parent [B] and lexical parent
    the translation unit. *)
Definition qualified_Foo : CXCursor :=
  class_cursor 10 CXCursor_ClassDecl CXCursor_NoDeclFound "Foo" true
    [ident "A"; punct "::"; ident "B"; punct "::"; ident "Foo";
     punct "("; kw "int"; punct ")"]
    scope_B tu [].

(** [Foo ( int )], with the same parents. *)
Definition unqualified_Foo : CXCursor :=
  class_cursor 11 CXCursor_ClassDecl CXCursor_NoDeclFound "Foo" true
    [ident "Foo"; punct "("; kw "int"; punct ")"]
    scope_B tu [].

(** A friend declaration and the class it declares, whose tokens would
    name a scope and which clang reports as a definition. *)
Definition friend_decl : CXCursor :=
  node {| handle := 3; kind := CXCursor_FriendDecl; template_kind := CXCursor_NoDeclFound;
          specializes := false; access := CX_CXXInvalidAccessSpecifier;
          virtual_base := false; defines := false; name := ""; usr := 3;
          tokens := []; doc := None |} scope_B scope_B [].

Definition befriended_Foo : CXCursor :=
  class_cursor 12 CXCursor_ClassDecl CXCursor_NoDeclFound "Foo" true
    [kw "friend"; kw "class"; ident "A"; punct "::"; ident "Foo"]
    scope_B tu
    [member_cursor 13 (CXCursor_other 6) CX_CXXInvalidAccessSpecifier false "x" []].

(** A class template definition [template <typename T> struct Vec { T x; }]. *)
Definition template_Vec : CXCursor :=
  class_cursor 14 (CXCursor_other 31) CXCursor_StructDecl "Vec" true
    [kw "template"; punct "<"; kw "typename"; ident "T"; punct ">";
     kw "struct"; ident "Vec"; punct "{"; ident "T"; ident "x"; punct ";"; punct "}"]
    tu tu
    [member_cursor 15 CXCursor_TemplateTypeParameter CX_CXXInvalidAccessSpecifier
                   false "T" [];
     member_cursor 16 (CXCursor_other 6) CX_CXXPublic false "x" []].

(** The base specifier of [class D : B]: the query reports an access
    value, no access keyword is spelled. *)
Definition base_B (a : CX_CXXAccessSpecifier) : CXCursor :=
  member_cursor 21 CXCursor_CXXBaseSpecifier a false "B" [ident "B"].

(** The base specifier [[[deprecated]] virtual protected ns::B]. *)
Definition base_full : CXCursor :=
  member_cursor 22 CXCursor_CXXBaseSpecifier CX_CXXProtected true "ns::B"
    [punct "["; punct "["; ident "deprecated"; punct "]"; punct "]";
     kw "virtual"; kw "protected"; ident "ns"; punct "::"; ident "B"].

Definition class_D (k : CXCursorKind) (cs : list CXCursor) : CXCursor :=
  class_cursor 20 k CXCursor_NoDeclFound "D" true [] tu tu cs.

(** An access specifier cursor with the given access value. *)
Definition access_spec (h : N) (a : CX_CXXAccessSpecifier) : CXCursor :=
  member_cursor h CXCursor_CXXAccessSpecifier a false "" [].

(** The forward declaration [class Fwd;]. *)
Definition forward_Fwd : CXCursor :=
  class_cursor 17 CXCursor_ClassDecl CXCursor_NoDeclFound "Fwd" false
    [kw "class"; ident "Fwd"; punct ";"] tu tu [].

(** [class D] with a public section, then an access specifier without a
    valid access value, then a base specifier. *)
Definition class_with_invalid_access : CXCursor :=
  class_D CXCursor_ClassDecl
    [access_spec 30 CX_CXXPublic; access_spec 31 CX_CXXInvalidAccessSpecifier;
     base_full].

(** A cursor that is no class, struct or union (an enumeration). *)
Definition not_a_class : CXCursor := class_D (CXCursor_other 5) [].

End Scripted.

(** ** Further definitions *)

(** *** [string_view] ([code_generator.hpp]) *)

Module StringView.

(** The character that ends a C string. *)
Definition NUL : ascii := "000"%char.

(** [std::strlen] on the characters found from a pointer on: the number
    of characters before the first [NUL]; [None] when the characters
    given hold none, which is a read past the end. *)
Fixpoint strlen (mem : string) : option nat :=
  match mem with
  | EmptyString => None
  | String a rest => if Ascii.eqb a NUL then Some 0 else option_map S (strlen rest)
  end.

(** What [std::string::c_str()] points to: the characters, then [NUL]. *)
Definition c_str_of (str : string) : string := str +:+ String NUL EmptyString.

(** [string_view]: the characters from [str_] on, and [length_]. *)
Record string_view : Set := { str_ : string; length_ : nat }.

(** [string_view(const std::string& str)]. *)
Definition of_std_string (str : string) : string_view :=
  {| str_ := c_str_of str; length_ := String.length str |}.

(** [string_view(const char* str)]. *)
Definition of_c_str (str : string) : option string_view :=
  option_map (fun n => {| str_ := str; length_ := n |}) (strlen str).

Definition length (v : string_view) : nat := length_ v.
Definition c_str (v : string_view) : string := str_ v.

(** [operator[]]: the character [i] places after [str_]. The bound
    [i < length()] is required of the caller and not tested; [None] is a
    read past the characters given. *)
Definition at_index (v : string_view) (i : nat) : option ascii :=
  String.get i (str_ v).

End StringView.

(** *** The calls behind the operations of an [output] object *)

Module CodeGenMore.
Import CodeGen.

Section Calls.
Context {cpp_entity cpp_entity_id : Type}.

(** The write function each overload of [operator<<] calls. *)
Definition call_of_streamed (x : streamed cpp_entity_id)
  : call cpp_entity cpp_entity_id :=
  match x with
  | keyword k => call_do_write_keyword k
  | identifier ident => call_do_write_identifier ident
  | entity_ref id name => call_do_write_reference id name
  | punctuation punct => call_do_write_punctuation punct
  | string_literal lit => call_do_write_str_literal lit
  | int_literal lit => call_do_write_int_literal lit
  | float_literal lit => call_do_write_float_literal lit
  | preprocessor_token tok => call_do_write_preprocessor tok
  | token_seq seq => call_do_write_token_seq seq
  | newl => call_do_write_newline
  | whitespace => call_do_write_whitespace
  end.

(** The calls of one operation on an [output] object that is not
    excluded, in order. *)
Definition calls_of_operation (op : @operation cpp_entity_id)
  : list (call cpp_entity cpp_entity_id) :=
  match op with
  | op_shl x => [call_of_streamed x]
  | op_indent print_newline =>
      call_do_indent :: (if print_newline then [call_do_write_newline] else [])
  | op_unindent => [call_do_unindent]
  end.

(** Whether an operation asks for a newline. *)
Definition emits_newline (op : @operation cpp_entity_id) : bool :=
  match op with
  | op_shl newl => true
  | op_indent print_newline => print_newline
  | _ => false
  end.

(** The characters an operation stands for. *)
Definition operation_text (op : @operation cpp_entity_id) : string :=
  match op with
  | op_shl x => streamed_text x
  | op_indent print_newline => if print_newline then Str.newline else ""
  | op_unindent => ""
  end.

(** The characters a sequence of operations stands for. *)
Definition operations_text (ops : list (@operation cpp_entity_id)) : string :=
  fold_right (fun op acc => operation_text op +:+ acc) "" ops.

(** A backend that implements the three pure virtual functions only:
    indentation is ignored and token sequences are appended to the text
    written so far. *)
Definition appender : code_generator cpp_entity cpp_entity_id string :=
  base_generator (fun st => st) (fun st => st) (fun tokens st => st +:+ tokens).
End Calls.

End CodeGenMore.

(** *** Reading more of a finished entity *)

Module ClassParserMore.
Import ClassParser.

Section Accessors.
Context {cpp_type : Type}.

Definition entity_name (e : cpp_entity cpp_type) : string :=
  match e with
  | cpp_class c => class_name _ c
  | cpp_other_entity _ name => name
  end.

Definition entity_class_kind (e : cpp_entity cpp_type) : option cpp_class_kind :=
  match e with
  | cpp_class c => Some (class_kind _ c)
  | cpp_other_entity _ _ => None
  end.

Definition entity_comment (e : cpp_entity cpp_type) : option string :=
  match e with
  | cpp_class c => comment _ c
  | cpp_other_entity _ _ => None
  end.

Definition entity_is_final (e : cpp_entity cpp_type) : bool :=
  match e with
  | cpp_class c => is_final _ c
  | cpp_other_entity _ _ => false
  end.
End Accessors.

Section Kinds.
Context {LC : libclang}.

(** The kinds the callback of [parse_cpp_class] returns on at once, once
    the three kinds it handles itself have been ruled out. *)
Definition is_ignored_kind (kind : CXCursorKind) : bool :=
  bool_decide (kind = CXCursor_TemplateTypeParameter)
  || bool_decide (kind = CXCursor_NonTypeTemplateParameter)
  || bool_decide (kind = CXCursor_TemplateTemplateParameter)
  || bool_decide (kind = CXCursor_ParmDecl)
  || clang_isExpression kind || clang_isReference kind
  || bool_decide (kind = CXCursor_UnexposedAttr).

(** The kinds the callback handles itself. *)
Definition is_handled_kind (kind : CXCursorKind) : bool :=
  bool_decide (kind = CXCursor_CXXAccessSpecifier)
  || bool_decide (kind = CXCursor_CXXBaseSpecifier)
  || bool_decide (kind = CXCursor_CXXFinalAttr).
End Kinds.

Section Callback.
Context {cpp_type : Type} {LC : libclang} {PF : parse_functions (cpp_type := cpp_type)}.
Implicit Types (cur parent_cur child : CXCursor)
         (idx : gmap cpp_entity_id (cpp_entity cpp_type))
         (b : builder cpp_type).

(** What a successful call of the callback has done. *)
Inductive visited cur child b idx b' idx' : Prop :=
| visited_access a :
    clang_getCursorKind child = CXCursor_CXXAccessSpecifier ->
    convert_access child = ok a ->
    b' = builder_access_specifier b a -> idx' = idx ->
    visited cur child b idx b' idx'
| visited_base a name :
    clang_getCursorKind child = CXCursor_CXXBaseSpecifier ->
    convert_access child = ok a ->
    b' = builder_base_class b name (parse_type cur (clang_getCursorType child))
                            a (clang_isVirtualBase child) ->
    idx' = idx ->
    visited cur child b idx b' idx'
| visited_final :
    clang_getCursorKind child = CXCursor_CXXFinalAttr ->
    b' = builder_is_final b -> idx' = idx ->
    visited cur child b idx b' idx'
| visited_ignored :
    is_handled_kind (clang_getCursorKind child) = false ->
    is_ignored_kind (clang_getCursorKind child) = true ->
    b' = b -> idx' = idx ->
    visited cur child b idx b' idx'
| visited_parsed :
    is_handled_kind (clang_getCursorKind child) = false ->
    is_ignored_kind (clang_getCursorKind child) = false ->
    b' = match (parse_entity idx child).1 with
         | Some entity => builder_add_child b entity
         | None => b
         end ->
    idx' = (parse_entity idx child).2 ->
    visited cur child b idx b' idx'.

(** The base a base specifier stands for: the access value the query
    reports, whether it is virtual, and the type parsed from its type. *)
Definition base_of cur (base : cpp_base_class cpp_type) child : Prop :=
  convert_access child = ok (base_access base)
  /\ base_is_virtual base = clang_isVirtualBase child
  /\ base_type base = parse_type cur (clang_getCursorType child).

Definition is_base_specifier child : bool :=
  bool_decide (clang_getCursorKind child = CXCursor_CXXBaseSpecifier).

Definition is_final_attribute child : bool :=
  bool_decide (clang_getCursorKind child = CXCursor_CXXFinalAttr).
End Callback.

End ClassParserMore.

(** *** More scripted cursors *)

Module ScriptedMore.
Import ClassParser Scripted.
#[local] Open Scope N_scope.

(** [class E final : B] with a template parameter, an expression and a
    member among its children. *)
Definition final_E : CXCursor :=
  class_cursor 40 CXCursor_ClassDecl CXCursor_NoDeclFound "E" true [] tu tu
    [base_B CX_CXXPrivate;
     member_cursor 41 CXCursor_CXXFinalAttr CX_CXXInvalidAccessSpecifier false "" [];
     member_cursor 42 CXCursor_TemplateTypeParameter CX_CXXInvalidAccessSpecifier
                   false "T" [];
     member_cursor 43 (CXCursor_other 106) CX_CXXInvalidAccessSpecifier false "1" [];
     member_cursor 44 (CXCursor_other 6) CX_CXXPrivate false "x" []].

(** A class whose children are all of ignored kinds. *)
Definition only_ignored : CXCursor :=
  class_cursor 45 CXCursor_StructDecl CXCursor_NoDeclFound "S" true [] tu tu
    [member_cursor 46 CXCursor_TemplateTypeParameter CX_CXXInvalidAccessSpecifier
                   false "T" [];
     member_cursor 47 (CXCursor_other 106) CX_CXXInvalidAccessSpecifier false "1" [];
     member_cursor 48 CXCursor_UnexposedAttr CX_CXXInvalidAccessSpecifier false "" []].

(** The specialization [A::Foo<int>], defined out of line. *)
Definition specialized_Foo : CXCursor :=
  class_cursor 50 CXCursor_ClassDecl CXCursor_NoDeclFound "Foo<int>" true
    [kw "struct"; ident "A"; punct "::"; ident "Foo"; punct "<"; kw "int";
     punct ">"; punct "{"; punct "}"] scope_B tu [].

End ScriptedMore.

(** ** Properties of the code generator protocol *)

Module CodeGenFacts.
Import CodeGen.

Section Excluded.
Context {cpp_entity cpp_entity_id B : Type}.
Implicit Types (o : output cpp_entity cpp_entity_id B) (st : B).

Lemma operator_bool_exclude o :
  options_ B o = exclude -> operator_bool o = false.
Proof. unfold operator_bool. intros ->. reflexivity. Qed.

Lemma shl_excluded o x st : operator_bool o = false -> shl o x st = st.
Proof. unfold shl. intros ->. reflexivity. Qed.

Lemma indent_excluded o print_newline st :
  operator_bool o = false -> indent o print_newline st = st.
Proof. unfold indent. intros ->. reflexivity. Qed.

Lemma unindent_excluded o st : operator_bool o = false -> unindent o st = st.
Proof. unfold unindent. intros ->. reflexivity. Qed.

Lemma dtor_excluded o st : operator_bool o = false -> output_dtor o st = st.
Proof. unfold output_dtor. intros ->. reflexivity. Qed.

Lemma run_operations_excluded o ops st :
  operator_bool o = false -> run_operations o ops st = st.
Proof.
  intros Hex. unfold run_operations.
  induction ops as [|op ops IH]; simpl; [reflexivity|].
  destruct op; simpl;
    rewrite ?shl_excluded, ?indent_excluded, ?unindent_excluded by exact Hex;
    exact IH.
Qed.

(** The options an [output] object holds are those its hook returned. *)
Lemma output_ctor_options (gen : code_generator cpp_entity cpp_entity_id B)
      e (is_container : bool) st :
  options_ B (output_ctor gen e is_container st).1 =
  (if is_container then on_container_begin gen e st else on_leaf gen e st).1.
Proof.
  unfold output_ctor.
  destruct (if is_container then _ else _) as [opts st']. reflexivity.
Qed.

Lemma output_ctor_state (gen : code_generator cpp_entity cpp_entity_id B)
      e (is_container : bool) st :
  (output_ctor gen e is_container st).2 =
  (if is_container then on_container_begin gen e st else on_leaf gen e st).2.
Proof.
  unfold output_ctor.
  destruct (if is_container then _ else _) as [opts st']. reflexivity.
Qed.

Lemma output_lifetime_excluded (gen : code_generator cpp_entity cpp_entity_id B)
      e (is_container : bool) ops st :
  (if is_container then on_container_begin gen e st else on_leaf gen e st).1
  = exclude ->
  output_lifetime gen e is_container ops st =
  (if is_container then on_container_begin gen e st else on_leaf gen e st).2.
Proof.
  intros Hex. unfold output_lifetime.
  pose proof (output_ctor_options gen e is_container st) as Hopt.
  pose proof (output_ctor_state gen e is_container st) as Hst.
  destruct (output_ctor gen e is_container st) as [o st1]. simpl in *.
  rewrite Hex in Hopt. apply operator_bool_exclude in Hopt.
  rewrite run_operations_excluded, dtor_excluded by exact Hopt.
  exact Hst.
Qed.
End Excluded.

(** C3. When the hook called by the constructor of an [output] object
    ([on_container_begin] for a container, [on_leaf] otherwise) returns
    [exclude], every [operator<<] on that object leaves the state of the
    generator as it is, whatever the generator and whatever is streamed,
    and so does the destructor. For the generator that logs every virtual
    call, the log of the whole life of the object holds the call of the
    hook and nothing else: no write call and no [on_container_end]. *)
Theorem exclude_performs_no_write_and_no_container_end
        {cpp_entity cpp_entity_id B : Type}
        (gen : code_generator cpp_entity cpp_entity_id B)
        (e : cpp_entity) (is_container : bool) (st : B) :
  (if is_container then on_container_begin gen e st else on_leaf gen e st).1
  = exclude ->
  let o := (output_ctor gen e is_container st).1 in
  (forall x st', shl o x st' = st')
  /\ (forall st', output_dtor o st' = st')
  /\ (forall policy ops,
         policy e = exclude ->
         recorded (cpp_entity_id := cpp_entity_id) policy e is_container ops =
         [if is_container then call_on_container_begin e else call_on_leaf e]).
Proof.
  intros Hex o.
  assert (Ho : operator_bool o = false).
  { apply operator_bool_exclude. unfold o. rewrite output_ctor_options. exact Hex. }
  split; [|split].
  - intros x st'. apply shl_excluded, Ho.
  - intros st'. apply dtor_excluded, Ho.
  - intros policy ops Hpol. unfold recorded.
    rewrite output_lifetime_excluded.
    + destruct is_container; reflexivity.
    + destruct is_container; simpl; exact Hpol.
Qed.

Lemma exclude_performs_no_write_and_no_container_end_witness :
  let gen := recorder (cpp_entity := string) (cpp_entity_id := N) (fun _ => exclude) in
  let o := (output_ctor gen "C" true []).1 in
  (forall x st', shl o x st' = st')
  /\ (forall st', output_dtor o st' = st')
  /\ (forall policy ops,
         policy "C" = exclude ->
         recorded (cpp_entity_id := N) policy "C" true ops =
         [call_on_container_begin "C"]).
Proof.
  exact (exclude_performs_no_write_and_no_container_end
           (recorder (cpp_entity := string) (cpp_entity_id := N) (fun _ => exclude))
           "C" true [] eq_refl).
Defined.

(** C10. On an [output] object whose options are [exclude], [indent]
    (with or without the newline) and [unindent] leave the state of the
    generator as it is, for every generator: none of [do_indent],
    [do_unindent], [do_write_newline] runs. Hence any sequence of
    operations on the object followed by its destruction leaves the
    generator in the state in which the hook of the constructor left it,
    and the logging generator records neither [do_indent], [do_unindent]
    nor [do_write_newline] for [indent] and [unindent]. *)
Theorem exclude_indent_unindent_frame
        {cpp_entity cpp_entity_id B : Type}
        (o : output cpp_entity cpp_entity_id B) :
  options_ B o = exclude ->
  (forall print_newline st, indent o print_newline st = st)
  /\ (forall st, unindent o st = st)
  /\ (forall ops st, output_dtor o (run_operations o ops st) = st)
  /\ (forall (policy : cpp_entity -> synopsis_options) e print_newline log,
         let r := {| gen_ := recorder (cpp_entity_id := cpp_entity_id) policy;
                     e_ := e; options_ := exclude |} in
         indent r print_newline log = log /\ unindent r log = log).
Proof.
  intros Hex. apply operator_bool_exclude in Hex.
  repeat split.
  - intros b st. apply indent_excluded, Hex.
  - intros st. apply unindent_excluded, Hex.
  - intros ops st. rewrite run_operations_excluded, dtor_excluded by exact Hex.
    reflexivity.
Qed.

Lemma exclude_indent_unindent_frame_witness :
  let o := {| gen_ := line_counter (cpp_entity := string) (cpp_entity_id := N);
              e_ := Some "C"; options_ := exclude |} in
  (forall print_newline st, indent o print_newline st = st)
  /\ (forall st, unindent o st = st)
  /\ (forall ops st, output_dtor o (run_operations o ops st) = st)
  /\ (forall (policy : string -> synopsis_options) e print_newline log,
         let r := {| gen_ := recorder (cpp_entity_id := N) policy;
                     e_ := e; options_ := exclude |} in
         indent r print_newline log = log /\ unindent r log = log).
Proof.
  exact (exclude_indent_unindent_frame
           {| gen_ := line_counter (cpp_entity := string) (cpp_entity_id := N);
              e_ := Some "C"; options_ := exclude |} eq_refl).
Defined.

(** The minimal backend that keeps, in order, what it is handed: each
    token sequence, and the end-of-line for each newline emission. *)
Lemma shl_minimal {cpp_entity cpp_entity_id B : Type}
      (ind unind : B -> B) (tok : string -> B -> B) (nl : B -> B)
      (e : option cpp_entity) (opts : synopsis_options)
      (x : streamed cpp_entity_id) (st : B) :
  shl {| gen_ := minimal_generator ind unind tok nl; e_ := e; options_ := opts |}
      x st =
  match opts with
  | exclude => st
  | _ => match x with
         | newl => nl st
         | _ => tok (streamed_text x) st
         end
  end.
Proof. destruct opts, x; reflexivity. Qed.

(** C8. In a generator that overrides none of the write operations, each
    of them is the token sequence primitive applied to the same text: the
    keyword, identifier, punctuation, literal and preprocessor writers to
    their argument, the reference writer to the display name alone, the
    newline writer to the end-of-line string, the whitespace writer to one
    space. A backend that implements only [do_write_token_seq],
    [do_indent], [do_unindent] and [do_write_newline] therefore receives,
    through an [output] object that is not excluded, the text of
    everything streamed: each item reaches [do_write_token_seq] with its
    text, except [newl], which reaches [do_write_newline]. *)
Theorem default_writes_forward_to_token_seq
        {cpp_entity cpp_entity_id B : Type}
        (ind unind : B -> B) (tok : string -> B -> B) (nl : B -> B)
        (s : string) (id : list cpp_entity_id) (st : B) :
  let g := base_generator (cpp_entity := cpp_entity)
                          (cpp_entity_id := cpp_entity_id) ind unind tok in
  (do_write_keyword g s st = do_write_token_seq g s st
   /\ do_write_identifier g s st = do_write_token_seq g s st
   /\ do_write_reference g id s st = do_write_token_seq g s st
   /\ do_write_punctuation g s st = do_write_token_seq g s st
   /\ do_write_str_literal g s st = do_write_token_seq g s st
   /\ do_write_int_literal g s st = do_write_token_seq g s st
   /\ do_write_float_literal g s st = do_write_token_seq g s st
   /\ do_write_preprocessor g s st = do_write_token_seq g s st
   /\ do_write_newline g st = do_write_token_seq g Str.newline st
   /\ do_write_whitespace g st = do_write_token_seq g Str.space st)
  /\ (forall (e : option cpp_entity) (opts : synopsis_options)
             (x : streamed cpp_entity_id),
         shl {| gen_ := minimal_generator ind unind tok nl; e_ := e;
                options_ := opts |} x st =
         match opts with
         | exclude => st
         | _ => match x with
                | newl => nl st
                | _ => tok (streamed_text x) st
                end
         end).
Proof.
  intros g. split.
  - repeat split.
  - intros e opts x. apply shl_minimal.
Qed.

(** *** Newlines *)

Lemma count_append (c : ascii) (a b : string) :
  Str.count c (a +:+ b) = Str.count c a + Str.count c b.
Proof.
  induction a as [|x a IH]; simpl; [reflexivity|].
  rewrite IH. destruct (Ascii.eqb x c); simpl; reflexivity.
Qed.

Section LineCounter.
Context {cpp_entity cpp_entity_id : Type}.
Implicit Types (o : output cpp_entity cpp_entity_id counted) (st : counted).

Lemma line_counter_token_seq tokens st :
  Str.count Str.nl tokens = 0 -> counts_agree st ->
  counts_agree (do_write_token_seq (line_counter (cpp_entity := cpp_entity)
                                      (cpp_entity_id := cpp_entity_id)) tokens st).
Proof.
  unfold counts_agree. simpl. intros H0 Hst.
  rewrite count_append, H0, Hst. apply Nat.add_0_r.
Qed.

Lemma line_counter_newline st :
  counts_agree st ->
  counts_agree (do_write_newline (line_counter (cpp_entity := cpp_entity)
                                    (cpp_entity_id := cpp_entity_id)) st).
Proof.
  unfold counts_agree. simpl. intros Hst.
  rewrite count_append, Hst. simpl. lia.
Qed.

Lemma line_counter_shl o x st :
  gen_ counted o = line_counter -> newline_free x = true -> counts_agree st ->
  counts_agree (shl o x st).
Proof.
  intros Hg Hx Hst. unfold shl. destruct (operator_bool o); [|exact Hst].
  rewrite Hg.
  destruct x; simpl in Hx; try apply Nat.eqb_eq in Hx;
    try (apply line_counter_token_seq; assumption).
  - apply line_counter_newline, Hst.
  - apply line_counter_token_seq; [reflexivity | exact Hst].
Qed.

Lemma line_counter_operation o op st :
  gen_ counted o = line_counter -> operation_newline_free op = true ->
  counts_agree st -> counts_agree (run_operation o op st).
Proof.
  intros Hg Hop Hst. destruct op as [x|print_newline|]; simpl.
  - apply line_counter_shl; assumption.
  - unfold indent. destruct (operator_bool o); [|exact Hst].
    rewrite Hg. destruct print_newline; [|exact Hst].
    apply line_counter_newline. exact Hst.
  - unfold unindent. destruct (operator_bool o); [|exact Hst].
    rewrite Hg. exact Hst.
Qed.
End LineCounter.

(** C9, as stated, fails: streaming a token sequence whose text is an
    end-of-line through an [output] object that is not excluded puts an
    end-of-line character into the text of the line counting backend
    while [do_write_newline] has not been called once. *)
Lemma newline_written_without_do_write_newline :
  let o := {| gen_ := line_counter (cpp_entity := string) (cpp_entity_id := N);
              e_ := None; options_ := definition |} in
  let st := shl o (token_seq Str.newline) {| text := ""; newline_calls := 0 |} in
  text st = Str.newline
  /\ Str.count Str.nl (text st) = 1
  /\ newline_calls st = 0.
Proof. repeat split. Qed.

(** C9, amended. When no text handed to a write operation holds an
    end-of-line character, every end-of-line character of the output went
    through [do_write_newline]: for the line counting backend, which
    appends what it is given and counts the calls of [do_write_newline],
    any sequence of [operator<<], [indent] and [unindent] on an [output]
    object keeps the number of end-of-line characters of the text equal
    to the number of calls. *)
Theorem newline_calls_count_newlines
        {cpp_entity cpp_entity_id : Type}
        (o : output cpp_entity cpp_entity_id counted)
        (ops : list operation) (st : counted) :
  gen_ counted o = line_counter ->
  forallb operation_newline_free ops = true ->
  Str.count Str.nl (text st) = newline_calls st ->
  Str.count Str.nl (text (run_operations o ops st))
  = newline_calls (run_operations o ops st).
Proof.
  intros Hg. unfold run_operations. revert st.
  induction ops as [|op ops IH]; intros st Hops Hst; simpl; [exact Hst|].
  simpl in Hops. apply andb_prop in Hops as [Hop Hops].
  apply IH; [exact Hops|].
  apply (line_counter_operation o op st Hg Hop Hst).
Qed.

Lemma newline_calls_count_newlines_witness :
  let o := {| gen_ := line_counter (cpp_entity := string) (cpp_entity_id := N);
              e_ := None; options_ := definition |} in
  let ops := [op_shl (keyword "class"); op_shl whitespace;
              op_shl (identifier "Foo"); op_indent true;
              op_shl newl; op_unindent] in
  let st := {| text := ""; newline_calls := 0 |} in
  Str.count Str.nl (text (run_operations o ops st)) = 2
  /\ newline_calls (run_operations o ops st) = 2.
Proof.
  intros o ops st.
  pose proof (newline_calls_count_newlines o ops st eq_refl eq_refl eq_refl) as H.
  split; [rewrite H|]; reflexivity.
Defined.

End CodeGenFacts.

(** ** Properties of the class parser *)

Module ClassParserFacts.
Import ClassParser.

(** *** The scope scan *)

Section ScopeScan.
Implicit Types (stream rest : token_stream) (name scope : string).

Lemma skip_if_true stream name rest :
  skip_if stream name = (true, rest) ->
  exists t, stream = t :: rest /\ token_spelling t = name.
Proof.
  destruct stream as [|t s]; simpl; [discriminate|].
  destruct (String.eqb (token_spelling t) name) eqn:E; [|discriminate].
  intros [= <-]. exists t. split; [reflexivity|]. apply String.eqb_eq, E.
Qed.

Lemma skip_if_false stream name rest :
  skip_if stream name = (false, rest) -> rest = stream.
Proof.
  destruct stream as [|t s]; simpl; [congruence|].
  destruct (String.eqb (token_spelling t) name); congruence.
Qed.

Lemma append_scope_true stream scope rest scope' :
  append_scope stream scope = (true, rest, scope') ->
  S (S (length rest)) = length stream.
Proof.
  destruct stream as [|t [|sep s]]; simpl; try discriminate.
  destruct (_ && _); [|discriminate]. intros [= <- _]. reflexivity.
Qed.

Lemma append_scope_false stream scope rest scope' :
  append_scope stream scope = (false, rest, scope') ->
  rest = stream /\ scope' = scope.
Proof.
  destruct stream as [|t [|sep s]]; simpl; try (intros [= <- <-]; tauto).
  destruct (_ && _); [discriminate|]. intros [= <- <-]. tauto.
Qed.

(** The loop ends within one more iteration than there are tokens. *)
Lemma scope_loop_total fuel name stream scope :
  length stream < fuel -> is_Some (scope_loop fuel name stream scope).
Proof.
  revert stream scope.
  induction fuel as [|fuel IH]; intros stream scope Hlen; [lia|].
  simpl.
  destruct (skip_if stream name) as [[|] s1] eqn:E1; [eexists; reflexivity|].
  apply skip_if_false in E1 as ->.
  destruct (append_scope stream scope) as [[[|] s2] sc2] eqn:E2.
  - apply append_scope_true in E2. apply IH. lia.
  - apply append_scope_false in E2 as [-> ->].
    destruct stream as [|t s]; simpl; [eexists; reflexivity|].
    apply IH. simpl in Hlen. lia.
Qed.

(** More fuel does not change a result. *)
Lemma scope_loop_mono fuel fuel' name stream scope r :
  scope_loop fuel name stream scope = Some r -> fuel <= fuel' ->
  scope_loop fuel' name stream scope = Some r.
Proof.
  revert fuel' stream scope.
  induction fuel as [|fuel IH]; intros fuel' stream scope; [discriminate|].
  intros H Hle. destruct fuel' as [|fuel']; [lia|].
  simpl in *.
  destruct (skip_if stream name) as [[|] s1]; [exact H|].
  destruct (append_scope s1 scope) as [[[|] s2] sc2].
  - apply IH; [exact H | lia].
  - destruct (bump s2) as [s3|f]; [|exact H]. apply IH; [exact H | lia].
Qed.

Lemma scope_loop_enough fuel name stream scope :
  length stream < fuel ->
  scope_loop fuel name stream scope = Some (scope_scan name stream scope).
Proof.
  intros Hlen. unfold scope_scan.
  destruct (scope_loop_total (S (length stream)) name stream scope) as [r Hr]; [lia|].
  rewrite Hr. apply (scope_loop_mono (S (length stream))); [exact Hr | lia].
Qed.

(** The loop of the source, without fuel. *)
Lemma scope_scan_unfold name stream scope :
  scope_scan name stream scope =
  match skip_if stream name with
  | (true, stream1) => ok (stream1, scope)
  | (false, stream1) =>
      match append_scope stream1 scope with
      | (true, stream2, scope2) => scope_scan name stream2 scope2
      | (false, stream2, scope2) =>
          match bump stream2 with
          | ok stream3 => scope_scan name stream3 scope2
          | fatal f => fatal f
          end
      end
  end.
Proof.
  unfold scope_scan at 1. simpl.
  destruct (skip_if stream name) as [[|] s1] eqn:E1; [reflexivity|].
  apply skip_if_false in E1 as ->.
  destruct (append_scope stream scope) as [[[|] s2] sc2] eqn:E2.
  - apply append_scope_true in E2.
    rewrite scope_loop_enough by lia. reflexivity.
  - apply append_scope_false in E2 as [-> ->].
    destruct stream as [|t s]; [reflexivity|]. cbn [bump].
    rewrite scope_loop_enough by (simpl; lia). reflexivity.
Qed.

Lemma scope_scan_found name t rest scope :
  token_spelling t = name -> scope_scan name (t :: rest) scope = ok (rest, scope).
Proof.
  intros Ht. rewrite scope_scan_unfold. simpl.
  apply String.eqb_eq in Ht. rewrite Ht. reflexivity.
Qed.

Lemma scope_scan_bump name t rest scope :
  token_kind t <> CXToken_Identifier -> token_spelling t <> name ->
  scope_scan name (t :: rest) scope = scope_scan name rest scope.
Proof.
  intros Hk Ht. rewrite scope_scan_unfold. simpl.
  apply String.eqb_neq in Ht. rewrite Ht.
  destruct rest as [|sep rest]; simpl; [reflexivity|].
  rewrite bool_decide_eq_false_2 by exact Hk. reflexivity.
Qed.

Lemma scope_scan_segment name s rest scope :
  s <> name ->
  scope_scan name (segment_tokens [s] ++ rest) scope =
  scope_scan name rest
             (if Str.empty scope then s else scope +:+ "::" +:+ s).
Proof.
  intros Hs. rewrite scope_scan_unfold. simpl.
  apply String.eqb_neq in Hs. rewrite Hs. reflexivity.
Qed.

Lemma append_assoc (a b c : string) : (a +:+ b) +:+ c = a +:+ (b +:+ c).
Proof.
  induction a as [|x a IH]; [reflexivity|].
  change (String x ((a +:+ b) +:+ c) = String x (a +:+ b +:+ c)).
  f_equal. exact IH.
Qed.

Lemma concat_merge (a b : string) (tl : list string) :
  String.concat "::" ((a +:+ "::" +:+ b) :: tl) = String.concat "::" (a :: b :: tl).
Proof.
  destruct tl as [|c tl]; [reflexivity|].
  change (((a +:+ "::" +:+ b) +:+ "::" +:+ String.concat "::" (c :: tl))
          = a +:+ "::" +:+ (b +:+ "::" +:+ String.concat "::" (c :: tl))).
  rewrite !append_assoc. reflexivity.
Qed.

Lemma append_nonempty (a b : string) : a <> "" -> a +:+ b <> "".
Proof. destruct a; [congruence | discriminate]. Qed.

Lemma empty_false (a : string) : a <> "" -> Str.empty a = false.
Proof. destruct a; [congruence | reflexivity]. Qed.

Lemma scope_scan_segments name segs nt rest scope :
  token_spelling nt = name ->
  Forall (fun s => s <> name /\ s <> "") segs ->
  scope <> "" ->
  scope_scan name (segment_tokens segs ++ nt :: rest) scope
  = ok (rest, String.concat "::" (scope :: segs)).
Proof.
  intros Hnt Hsegs. revert scope.
  induction Hsegs as [|s segs [Hs Hne] _ IH]; intros scope Hscope.
  - apply scope_scan_found, Hnt.
  - change (segment_tokens (s :: segs)) with (segment_tokens [s] ++ segment_tokens segs).
    rewrite <- app_assoc, scope_scan_segment by exact Hs.
    rewrite empty_false by exact Hscope.
    rewrite IH by (apply append_nonempty, Hscope).
    rewrite concat_merge. reflexivity.
Qed.

Lemma scope_scan_qualified name junk segs nt rest :
  token_spelling nt = name ->
  Forall (fun t => token_kind t <> CXToken_Identifier /\ token_spelling t <> name) junk ->
  Forall (fun s => s <> name /\ s <> "") segs ->
  scope_scan name (junk ++ segment_tokens segs ++ nt :: rest) ""
  = ok (rest, String.concat "::" segs).
Proof.
  intros Hnt Hjunk Hsegs.
  induction Hjunk as [|t junk [Hk Ht] _ IH].
  - simpl. destruct Hsegs as [|s segs [Hs Hne] Hsegs].
    + apply scope_scan_found, Hnt.
    + change (segment_tokens (s :: segs)) with (segment_tokens [s] ++ segment_tokens segs).
      rewrite <- app_assoc, scope_scan_segment by exact Hs. simpl.
      apply scope_scan_segments; assumption.
  - simpl. rewrite scope_scan_bump by assumption. exact IH.
Qed.

Lemma concat_segments_nonempty (s : string) (segs : list string) :
  s <> "" -> Str.empty (String.concat "::" (s :: segs)) = false.
Proof.
  intros Hs. apply empty_false.
  destruct segs; simpl; [exact Hs|]. apply append_nonempty, Hs.
Qed.

(** The name, cut at the first ['<']. *)
Lemma find_erase (c : ascii) (s : string) (pos : nat) :
  Str.find c s = Some pos ->
  Str.find c (Str.erase_from pos s) = None
  /\ exists tl, s = Str.erase_from pos s +:+ String c tl.
Proof.
  revert pos. induction s as [|a s IH]; intros pos; simpl; [discriminate|].
  destruct (Ascii.eqb a c) eqn:E.
  - intros [= <-]. simpl. split; [reflexivity|].
    apply Ascii.eqb_eq in E as ->. exists s. reflexivity.
  - destruct (Str.find c s) as [p|]; simpl; [|discriminate].
    intros [= <-]. simpl. rewrite E.
    destruct (IH p eq_refl) as [Hnone [tl Htl]].
    rewrite Hnone. split; [reflexivity|]. exists tl.
    change (String a s = String a (Str.erase_from p s +:+ String c tl)).
    f_equal. exact Htl.
Qed.

Lemma append_empty_r (a : string) : a +:+ "" = a.
Proof.
  induction a as [|x a IH]; [reflexivity|].
  change (String x (a +:+ "") = String x a). f_equal. exact IH.
Qed.
End ScopeScan.

Section Results.
Context {A C : Type}.

Lemma bind_ok (m : result A) (f : A -> result C) (c : C) :
  m ≫= f = ok c -> exists a, m = ok a /\ f a = ok c.
Proof. destruct m as [a|e]; [|discriminate]. intros H. exists a. tauto. Qed.

Lemma bind_fatal (m : result A) (f : A -> result C) (e : fault) :
  m = fatal e -> m ≫= f = fatal e.
Proof. intros ->. reflexivity. Qed.
End Results.

Section Parser.
Context {cpp_type : Type} {LC : libclang} {PF : parse_functions (cpp_type := cpp_type)}.
Implicit Types (cur parent_cur child : CXCursor)
         (idx : gmap cpp_entity_id (cpp_entity cpp_type))
         (b : builder cpp_type).

Lemma unqualified_name_cut cur :
  Str.find "<" (unqualified_name cur) = None
  /\ exists suffix,
      get_cursor_name cur = unqualified_name cur +:+ suffix
      /\ (suffix = "" \/ exists tl, suffix = String "<" tl).
Proof.
  unfold unqualified_name.
  destruct (Str.find "<" (get_cursor_name cur)) as [pos|] eqn:E.
  - destruct (find_erase _ _ _ E) as [Hnone [tl Htl]].
    split; [exact Hnone|]. exists (String "<" tl). split; [exact Htl|].
    right. exists tl. reflexivity.
  - split; [exact E|]. exists "". split; [|left; reflexivity].
    symmetry. apply append_empty_r.
Qed.

(** C1. The name the scan looks for is the cursor's name cut at its
    first ['<']. When the tokens of the cursor are any tokens that are
    neither identifiers nor spelled like the name, then the scope
    segments [s1 :: ... sn ::] (identifiers other than the name), then a
    token spelled exactly like the name, then anything, the scan advances
    over the former one token at a time, consumes each segment, and stops
    at that first match with the scope string [s1::...::sn]; the
    semantic-parent reference is that string with the identity of the
    semantic parent cursor, and there is none when there is no segment,
    the scope string being empty. *)
Theorem scope_resolution_of_out_of_line_class
        cur (junk : token_stream) (segs : list string) (nt : token)
        (rest : token_stream) :
  cursor_tokens cur = junk ++ segment_tokens segs ++ nt :: rest ->
  token_spelling nt = unqualified_name cur ->
  Forall (fun t => token_kind t <> CXToken_Identifier
                   /\ token_spelling t <> unqualified_name cur) junk ->
  Forall (fun s => s <> unqualified_name cur /\ s <> "") segs ->
  (Str.find "<" (unqualified_name cur) = None
   /\ exists suffix,
       get_cursor_name cur = unqualified_name cur +:+ suffix
       /\ (suffix = "" \/ exists tl, suffix = String "<" tl))
  /\ scope_scan (unqualified_name cur) (cursor_tokens cur) ""
     = ok (rest, String.concat "::" segs)
  /\ out_of_line_semantic_parent cur
     = ok (match segs with
           | [] => None
           | _ :: _ =>
               Some {| ref_id := get_entity_id (clang_getCursorSemanticParent cur);
                       ref_name := String.concat "::" segs |}
           end).
Proof.
  intros Htok Hnt Hjunk Hsegs.
  pose proof (scope_scan_qualified _ junk segs nt rest Hnt Hjunk Hsegs) as Hscan.
  rewrite <- Htok in Hscan.
  split; [apply unqualified_name_cut|]. split; [exact Hscan|].
  unfold out_of_line_semantic_parent. rewrite Hscan. simpl.
  destruct Hsegs as [|s segs [_ Hne] _]; [reflexivity|].
  rewrite concat_segments_nonempty by exact Hne. reflexivity.
Qed.

(** *** The two ways through [parse_cpp_class] *)

Lemma parse_cpp_class_friend idx cur parent_cur :
  is_friend parent_cur = true ->
  parse_cpp_class idx cur parent_cur =
  (b ← make_class_builder cur;
   if is_templated cur then ok (finish_declaration b (get_entity_id cur), idx)
   else ok (finish_declaration_idx b idx (get_entity_id cur))).
Proof.
  intros Hf. unfold parse_cpp_class. rewrite Hf.
  destruct (make_class_builder cur) as [b|f]; reflexivity.
Qed.

Lemma parse_cpp_class_not_friend idx cur parent_cur :
  is_friend parent_cur = false ->
  parse_cpp_class idx cur parent_cur =
  (b ← make_class_builder cur;
   '(b, semantic_parent, idx) ← parse_members idx b cur;
   if clang_isCursorDefinition cur then
     if is_templated cur then ok (finish b semantic_parent, idx)
     else ok (finish_idx b idx (get_entity_id cur) semantic_parent)
   else
     if is_templated cur then ok (finish_declaration b (get_entity_id cur), idx)
     else ok (finish_declaration_idx b idx (get_entity_id cur))).
Proof.
  intros Hf. unfold parse_cpp_class. rewrite Hf.
  destruct (make_class_builder cur) as [b|f]; reflexivity.
Qed.

(** *** What the traversal of the children does to the index *)

Lemma visit_child_lookup cur child b idx b' idx' (k : cpp_entity_id) :
  (forall i, (parse_entity i child).2 !! k = i !! k) ->
  visit_child cur (b, idx) child = ok (b', idx') ->
  idx' !! k = idx !! k.
Proof.
  intros Hpe. unfold visit_child.
  repeat (match goal with
          | |- context [if ?c then _ else _] => destruct c
          end);
    try (intros H; apply bind_ok in H as (x & _ & [= _ <-]); reflexivity);
    try (intros [= _ <-]; reflexivity).
  specialize (Hpe idx).
  destruct (parse_entity idx child) as [[entity|] i]; simpl in Hpe;
    intros [= _ <-]; exact Hpe.
Qed.

Lemma visit_children_lookup cur childs b idx b' idx' (k : cpp_entity_id) :
  (forall child i, In child childs -> (parse_entity i child).2 !! k = i !! k) ->
  visit_children cur childs (b, idx) = ok (b', idx') ->
  idx' !! k = idx !! k.
Proof.
  revert b idx.
  induction childs as [|child childs IH]; intros b idx Hpe; simpl.
  - intros [= _ <-]. reflexivity.
  - intros H. apply bind_ok in H as ([b1 idx1] & H1 & H).
    rewrite (IH b1 idx1); [| intros c i Hc; apply Hpe; right; exact Hc | exact H].
    apply (visit_child_lookup cur child b idx b1 idx1); [|exact H1].
    intros i. apply Hpe. left. reflexivity.
Qed.

Lemma parse_members_lookup idx b cur b' sp idx' (k : cpp_entity_id) :
  (forall child i, In child (cursor_children cur) ->
                   (parse_entity i child).2 !! k = i !! k) ->
  parse_members idx b cur = ok (b', sp, idx') ->
  idx' !! k = idx !! k.
Proof.
  intros Hpe. unfold parse_members. intros H.
  apply bind_ok in H as (sp0 & _ & H).
  apply bind_ok in H as ([b1 idx1] & H1 & [= _ _ <-]).
  apply (visit_children_lookup _ _ _ _ _ _ k Hpe H1).
Qed.

(** Finishing a templated class hands the index on as it is. *)
Lemma templated_index idx cur parent_cur (e : cpp_entity cpp_type)
      (idx' : gmap cpp_entity_id (cpp_entity cpp_type)) :
  parse_cpp_class idx cur parent_cur = ok (e, idx') ->
  is_templated cur = true ->
  idx' = (if is_friend parent_cur then idx else index_after_members idx cur).
Proof.
  intros H Ht. destruct (is_friend parent_cur) eqn:Hf.
  - rewrite parse_cpp_class_friend in H by exact Hf. rewrite Ht in H.
    apply bind_ok in H as (b & _ & [= _ <-]). reflexivity.
  - rewrite parse_cpp_class_not_friend in H by exact Hf. rewrite Ht in H.
    apply bind_ok in H as (b & Hb & H).
    apply bind_ok in H as ([[b' sp] idx1] & Hm & H).
    assert (idx' = idx1) as ->.
    { destruct (clang_isCursorDefinition cur); injection H as _ <-; reflexivity. }
    unfold index_after_members. rewrite Hb. simpl. rewrite Hm. reflexivity.
Qed.

Lemma index_after_members_lookup idx cur (k : cpp_entity_id) :
  (forall child i, In child (cursor_children cur) ->
                   (parse_entity i child).2 !! k = i !! k) ->
  index_after_members idx cur !! k = idx !! k.
Proof.
  intros Hpe. unfold index_after_members.
  destruct (make_class_builder cur) as [b|f]; simpl; [|reflexivity].
  destruct (parse_members idx b cur) as [[[b' sp] idx1]|f] eqn:Hm; [|reflexivity].
  apply (parse_members_lookup _ _ _ _ _ _ _ Hpe Hm).
Qed.

(** C2. When [parse_cpp_class] succeeds on a templated cursor (a
    template cursor kind, or a specialization of a template), the index
    it returns is the index as the traversal of the children left it (the
    index it was given, for a friend): finishing, as a definition or as
    a declaration, adds nothing. In particular, when no child parser
    touches the entry of the cursor's identity, that entry is as before.
    When it succeeds on a cursor that is not templated, is not a friend
    and is a definition, the index maps the cursor's identity to the
    finished entity. *)
Theorem finish_registers_only_non_templates
        idx cur parent_cur (e : cpp_entity cpp_type)
        (idx' : gmap cpp_entity_id (cpp_entity cpp_type)) :
  parse_cpp_class idx cur parent_cur = ok (e, idx') ->
  (is_templated cur = true ->
   idx' = (if is_friend parent_cur then idx else index_after_members idx cur)
   /\ ((forall child i, In child (cursor_children cur) ->
          (parse_entity i child).2 !! get_entity_id cur = i !! get_entity_id cur) ->
       idx' !! get_entity_id cur = idx !! get_entity_id cur))
  /\ (is_templated cur = false -> is_friend parent_cur = false ->
      clang_isCursorDefinition cur = true ->
      idx' !! get_entity_id cur = Some e).
Proof.
  intros H. split.
  - intros Ht. pose proof (templated_index _ _ _ _ _ H Ht) as Hidx.
    split; [exact Hidx|]. intros Hpe. rewrite Hidx.
    destruct (is_friend parent_cur); [reflexivity|].
    apply index_after_members_lookup, Hpe.
  - intros Ht Hf Hd.
    rewrite parse_cpp_class_not_friend in H by exact Hf. rewrite Ht, Hd in H.
    apply bind_ok in H as (b & Hb & H).
    apply bind_ok in H as ([[b' sp] idx1] & Hm & H).
    unfold finish_idx in H. injection H as <- <-.
    apply lookup_insert_eq.
Qed.

(** C5. For a friend cursor (the parent cursor is a friend declaration,
    in a configuration that knows this cursor kind), [parse_cpp_class] is
    the class builder finished as a declaration at once: the result does
    not depend on the tokens of the cursor, on its children, nor on
    whether the cursor is a definition. The scope scan is not run, so no
    token is read and no semantic-parent reference is produced; the
    entity is not a definition. *)
Theorem friend_class_is_finished_as_declaration idx cur parent_cur :
  is_friend parent_cur = true ->
  parse_cpp_class idx cur parent_cur =
  (kind ← parse_class_kind cur;
   let b := builder_new (get_cursor_name cur) kind in
   if is_templated cur then ok (finish_declaration b (get_entity_id cur), idx)
   else ok (finish_declaration_idx b idx (get_entity_id cur)))
  /\ parse_cpp_class idx cur parent_cur <> fatal unexpected_token
  /\ (forall (e : cpp_entity cpp_type) idx',
         parse_cpp_class idx cur parent_cur = ok (e, idx') ->
         entity_semantic_parent e = None
         /\ entity_is_definition e = Some false).
Proof.
  intros Hf. rewrite parse_cpp_class_friend by exact Hf.
  split; [|split].
  - unfold make_class_builder. destruct (parse_class_kind cur); reflexivity.
  - unfold make_class_builder, parse_class_kind.
    destruct (switched_kind cur); simpl; try discriminate;
      destruct (is_templated cur); discriminate.
  - intros e idx' H. apply bind_ok in H as (b & _ & H).
    destruct (is_templated cur); injection H as <- _; split; reflexivity.
Qed.

(** C6. When the cursor is not a definition, or is a friend cursor, and
    [parse_cpp_class] succeeds, the entity is the one
    [finish_declaration] produces for the cursor's identity: it is not a
    definition and it has no children. When moreover the cursor is
    templated, the index is the one the traversal of the children left
    (the given one, for a friend): finishing does not touch it. *)
Theorem declaration_is_not_definition_and_has_no_children
        idx cur parent_cur (e : cpp_entity cpp_type)
        (idx' : gmap cpp_entity_id (cpp_entity cpp_type)) :
  clang_isCursorDefinition cur = false \/ is_friend parent_cur = true ->
  parse_cpp_class idx cur parent_cur = ok (e, idx') ->
  (exists b, e = finish_declaration b (get_entity_id cur))
  /\ entity_is_definition e = Some false
  /\ entity_children e = []
  /\ (is_templated cur = true ->
      idx' = (if is_friend parent_cur then idx else index_after_members idx cur)).
Proof.
  intros Hcase H.
  assert (exists b, e = finish_declaration b (get_entity_id cur)) as [b ->].
  { destruct (is_friend parent_cur) eqn:Hf.
    - rewrite parse_cpp_class_friend in H by exact Hf.
      apply bind_ok in H as (b & _ & H). exists b.
      destruct (is_templated cur); injection H as <- _; reflexivity.
    - destruct Hcase as [Hd|]; [|discriminate].
      rewrite parse_cpp_class_not_friend in H by exact Hf. rewrite Hd in H.
      apply bind_ok in H as (b & _ & H).
      apply bind_ok in H as ([[b' sp] idx1] & _ & H). exists b'.
      destruct (is_templated cur); injection H as <- _; reflexivity. }
  split; [exists b; reflexivity|]. split; [reflexivity|]. split; [reflexivity|].
  intros Ht.
  apply (templated_index idx cur parent_cur _ idx' H Ht).
Qed.

(** *** Base classes *)


(** *** Faults *)

Lemma convert_access_unreachable child :
  convert_access child = fatal unreachable_state
  <-> is_valid_access (clang_getCXXAccessSpecifier child) = false.
Proof.
  unfold convert_access.
  destruct (clang_getCXXAccessSpecifier child); simpl; split;
    (reflexivity || discriminate).
Qed.

Lemma convert_access_valid child :
  is_valid_access (clang_getCXXAccessSpecifier child) = true ->
  exists a, convert_access child = ok a.
Proof.
  unfold convert_access.
  destruct (clang_getCXXAccessSpecifier child); simpl;
    [discriminate | eexists; reflexivity ..].
Qed.

Lemma parse_class_kind_unreachable cur :
  parse_class_kind cur = fatal unreachable_state
  <-> is_class_kind (switched_kind cur) = false.
Proof.
  unfold parse_class_kind.
  destruct (switched_kind cur); simpl; split; (reflexivity || discriminate).
Qed.

Lemma parse_class_kind_valid cur :
  is_class_kind (switched_kind cur) = true -> exists k, parse_class_kind cur = ok k.
Proof.
  unfold parse_class_kind.
  destruct (switched_kind cur); simpl; (discriminate || (eexists; reflexivity)).
Qed.

Lemma visit_child_invalid_access cur b idx child :
  clang_getCursorKind child = CXCursor_CXXAccessSpecifier
  \/ clang_getCursorKind child = CXCursor_CXXBaseSpecifier ->
  is_valid_access (clang_getCXXAccessSpecifier child) = false ->
  visit_child cur (b, idx) child = fatal unreachable_state.
Proof.
  intros Hk Hinv. apply convert_access_unreachable in Hinv.
  unfold visit_child, add_access_specifier, add_base_class.
  destruct Hk as [Hk|Hk]; rewrite Hk; simpl; rewrite Hinv; reflexivity.
Qed.

Lemma visit_child_fault cur b idx child f :
  is_valid_access (clang_getCXXAccessSpecifier child) = true ->
  visit_child cur (b, idx) child = fatal f -> f = unexpected_token.
Proof.
  intros Hv. destruct (convert_access_valid child Hv) as [a Ha].
  unfold visit_child.
  destruct (bool_decide (clang_getCursorKind child = CXCursor_CXXAccessSpecifier)) eqn:E1.
  { apply bool_decide_eq_true_1 in E1. unfold add_access_specifier.
    rewrite E1, Ha. simpl. discriminate. }
  destruct (bool_decide (clang_getCursorKind child = CXCursor_CXXBaseSpecifier)) eqn:E2.
  { apply bool_decide_eq_true_1 in E2. unfold add_base_class.
    rewrite E2, Ha. simpl.
    destruct (clang_isVirtualBase child); simpl; [|discriminate].
    unfold skip. destruct (skip_if _ _) as [[|] s1]; simpl; [discriminate|].
    intros [= <-]. reflexivity. }
  repeat (match goal with
          | |- context [if ?c then _ else _] => destruct c
          end); try discriminate.
  destruct (parse_entity idx child) as [[entity|] i]; discriminate.
Qed.

Lemma visit_child_valid_ok cur child
      (acc : builder cpp_type * gmap cpp_entity_id (cpp_entity cpp_type)) :
  is_valid_access (clang_getCXXAccessSpecifier child) = true ->
  clang_getCursorKind child <> CXCursor_CXXBaseSpecifier ->
  exists acc', visit_child cur acc child = ok acc'.
Proof.
  intros Hv Hk. destruct acc as [b idx].
  destruct (convert_access_valid child Hv) as [a Ha].
  unfold visit_child.
  destruct (bool_decide (clang_getCursorKind child = CXCursor_CXXAccessSpecifier)) eqn:E1.
  { apply bool_decide_eq_true_1 in E1. unfold add_access_specifier.
    rewrite E1, Ha. simpl. eexists. reflexivity. }
  rewrite bool_decide_eq_false_2 by exact Hk.
  repeat (match goal with
          | |- context [if ?c then _ else _] => destruct c
          end); try (eexists; reflexivity).
  destruct (parse_entity idx child) as [[entity|] i]; eexists; reflexivity.
Qed.

Lemma visit_children_app cur (pre post : list CXCursor)
      (acc : builder cpp_type * gmap cpp_entity_id (cpp_entity cpp_type)) :
  visit_children cur (pre ++ post) acc =
  (acc' ← visit_children cur pre acc; visit_children cur post acc').
Proof.
  revert acc. induction pre as [|c pre IH]; intros acc; simpl; [reflexivity|].
  destruct (visit_child cur acc c) as [acc1|f]; simpl; [apply IH | reflexivity].
Qed.

Lemma visit_children_valid_ok cur (pre : list CXCursor)
      (acc : builder cpp_type * gmap cpp_entity_id (cpp_entity cpp_type)) :
  Forall (fun c => is_valid_access (clang_getCXXAccessSpecifier c) = true
                   /\ clang_getCursorKind c <> CXCursor_CXXBaseSpecifier) pre ->
  exists acc', visit_children cur pre acc = ok acc'.
Proof.
  intros Hpre. revert acc.
  induction Hpre as [|c pre [Hv Hk] _ IH]; intros acc; simpl.
  - eexists. reflexivity.
  - destruct (visit_child_valid_ok cur c acc Hv Hk) as [acc1 ->]. simpl. apply IH.
Qed.

Lemma visit_children_fault cur (childs : list CXCursor)
      (acc : builder cpp_type * gmap cpp_entity_id (cpp_entity cpp_type)) f :
  Forall (fun c => is_valid_access (clang_getCXXAccessSpecifier c) = true) childs ->
  visit_children cur childs acc = fatal f -> f = unexpected_token.
Proof.
  intros Hall. revert acc.
  induction Hall as [|c childs Hv _ IH]; intros [b idx]; [discriminate|].
  cbn [visit_children].
  destruct (visit_child cur (b, idx) c) as [acc1|f1] eqn:E.
  - apply IH.
  - intros [= <-]. apply (visit_child_fault _ _ _ _ _ Hv E).
Qed.

Lemma scope_loop_fault fuel name stream scope f :
  scope_loop fuel name stream scope = Some (fatal f) -> f = unexpected_token.
Proof.
  revert stream scope.
  induction fuel as [|fuel IH]; intros stream scope; simpl; [discriminate|].
  destruct (skip_if stream name) as [[|] s1]; [discriminate|].
  destruct (append_scope s1 scope) as [[[|] s2] sc2]; [apply IH|].
  destruct s2 as [|t s2]; simpl; [intros [= <-]; reflexivity | apply IH].
Qed.

Lemma out_of_line_fault cur f :
  out_of_line_semantic_parent cur = fatal f -> f = unexpected_token.
Proof.
  unfold out_of_line_semantic_parent, scope_scan.
  destruct (scope_loop _ _ _ _) as [[[s sc]|f1]|] eqn:E; simpl.
  - destruct (negb (Str.empty sc)); discriminate.
  - intros [= <-]. apply (scope_loop_fault _ _ _ _ _ E).
  - intros [= <-]. reflexivity.
Qed.

Lemma parse_members_fault idx b cur f :
  Forall (fun c => is_valid_access (clang_getCXXAccessSpecifier c) = true)
         (cursor_children cur) ->
  parse_members idx b cur = fatal f -> f = unexpected_token.
Proof.
  intros Hall. unfold parse_members.
  destruct (if negb _ then _ else _) as [sp|f1] eqn:E; simpl.
  - destruct (visit_children _ _ _) as [[b1 idx1]|f1] eqn:E1; simpl; [discriminate|].
    intros [= <-]. apply (visit_children_fault _ _ _ _ Hall E1).
  - intros [= <-].
    destruct (negb _); [apply (out_of_line_fault _ _ E) | discriminate].
Qed.

Lemma parse_cpp_class_invalid_kind idx cur parent_cur :
  is_class_kind (switched_kind cur) = false ->
  parse_cpp_class idx cur parent_cur = fatal unreachable_state.
Proof.
  intros Hk. apply parse_class_kind_unreachable in Hk.
  unfold parse_cpp_class, make_class_builder. rewrite Hk. reflexivity.
Qed.

Lemma parse_cpp_class_invalid_access idx cur parent_cur child (pre post : list CXCursor) :
  is_valid_access (clang_getCXXAccessSpecifier child) = false ->
  clang_getCursorKind child = CXCursor_CXXAccessSpecifier
  \/ clang_getCursorKind child = CXCursor_CXXBaseSpecifier ->
  is_friend parent_cur = false ->
  is_class_kind (switched_kind cur) = true ->
  clang_equalCursors (clang_getCursorSemanticParent cur)
                     (clang_getCursorLexicalParent cur) = true ->
  cursor_children cur = pre ++ child :: post ->
  Forall (fun c => is_valid_access (clang_getCXXAccessSpecifier c) = true
                   /\ clang_getCursorKind c <> CXCursor_CXXBaseSpecifier) pre ->
  parse_cpp_class idx cur parent_cur = fatal unreachable_state.
Proof.
  intros Hinv Hkind Hf Hk Heq Hchildren Hpre.
  rewrite parse_cpp_class_not_friend by exact Hf.
  unfold make_class_builder.
  destruct (parse_class_kind_valid cur Hk) as [k ->]. simpl.
  unfold parse_members. rewrite Heq, Hchildren, visit_children_app. simpl.
  destruct (visit_children_valid_ok cur pre
              (builder_set_comment (builder_new (get_cursor_name cur) k)
                                   (comments_match cur), idx) Hpre)
    as [[b1 idx1] ->].
  cbn [mbind result_bind visit_children].
  rewrite (visit_child_invalid_access cur b1 idx1 child Hkind Hinv). reflexivity.
Qed.

Lemma parse_cpp_class_fault idx cur parent_cur f :
  is_class_kind (switched_kind cur) = true ->
  Forall (fun c => is_valid_access (clang_getCXXAccessSpecifier c) = true)
         (cursor_children cur) ->
  parse_cpp_class idx cur parent_cur = fatal f -> f = unexpected_token.
Proof.
  intros Hk Hall.
  destruct (parse_class_kind_valid cur Hk) as [k Hkind].
  destruct (is_friend parent_cur) eqn:Hf.
  - rewrite parse_cpp_class_friend by exact Hf.
    unfold make_class_builder. rewrite Hkind. simpl.
    destruct (is_templated cur); discriminate.
  - rewrite parse_cpp_class_not_friend by exact Hf.
    unfold make_class_builder. rewrite Hkind. simpl.
    destruct (parse_members idx _ cur) as [[[b1 sp] idx1]|f1] eqn:E; simpl.
    + destruct (clang_isCursorDefinition cur), (is_templated cur); discriminate.
    + intros [= <-]. apply (parse_members_fault _ _ _ _ Hall E).
Qed.

(** C7. [convert_access] ends in the unreachable-state fault exactly
    when the access value of the cursor is not public, protected or
    private, and [parse_class_kind] exactly when the kind it switches on
    is none of class, struct and union. Either fault ends
    [parse_cpp_class] at once with that fault: a class cursor of another
    kind before anything is built, and an access-specifier or
    base-specifier child with an invalid access value as soon as it is
    visited, the children after it being left unvisited. When the class
    kind is valid and every child has a valid access value,
    [parse_cpp_class] never ends in the unreachable-state fault (nor in a
    failed assertion). *)
Theorem invalid_provider_values_are_fatal
        idx cur parent_cur child (pre post : list CXCursor) :
  (convert_access child = fatal unreachable_state
   <-> is_valid_access (clang_getCXXAccessSpecifier child) = false)
  /\ (parse_class_kind cur = fatal unreachable_state
      <-> is_class_kind (switched_kind cur) = false)
  /\ (is_class_kind (switched_kind cur) = false ->
      parse_cpp_class idx cur parent_cur = fatal unreachable_state)
  /\ (is_valid_access (clang_getCXXAccessSpecifier child) = false ->
      clang_getCursorKind child = CXCursor_CXXAccessSpecifier
      \/ clang_getCursorKind child = CXCursor_CXXBaseSpecifier ->
      is_friend parent_cur = false ->
      is_class_kind (switched_kind cur) = true ->
      clang_equalCursors (clang_getCursorSemanticParent cur)
                         (clang_getCursorLexicalParent cur) = true ->
      cursor_children cur = pre ++ child :: post ->
      Forall (fun c => is_valid_access (clang_getCXXAccessSpecifier c) = true
                       /\ clang_getCursorKind c <> CXCursor_CXXBaseSpecifier) pre ->
      parse_cpp_class idx cur parent_cur = fatal unreachable_state)
  /\ (is_class_kind (switched_kind cur) = true ->
      Forall (fun c => is_valid_access (clang_getCXXAccessSpecifier c) = true)
             (cursor_children cur) ->
      forall f, parse_cpp_class idx cur parent_cur = fatal f -> f = unexpected_token).
Proof.
  split; [apply convert_access_unreachable|].
  split; [apply parse_class_kind_unreachable|].
  split; [apply parse_cpp_class_invalid_kind|].
  split.
  - intros. eapply parse_cpp_class_invalid_access; eassumption.
  - intros Hk Hall f. apply parse_cpp_class_fault; assumption.
Qed.

End Parser.

(** *** The parser on scripted cursors *)

Section OnScriptedCursors.
Import Scripted.
#[local] Open Scope N_scope.

Lemma scope_resolution_of_out_of_line_class_witness :
  scope_scan "Foo" (cursor_tokens qualified_Foo) ""
  = ok ([punct "("; kw "int"; punct ")"], "A::B")
  /\ out_of_line_semantic_parent qualified_Foo
     = ok (Some {| ref_id := 20; ref_name := "A::B" |}).
Proof.
  refine (proj2 (scope_resolution_of_out_of_line_class
                   qualified_Foo [] ["A"; "B"] (ident "Foo")
                   [punct "("; kw "int"; punct ")"] _ _ _ _)).
  - reflexivity.
  - reflexivity.
  - constructor.
  - repeat constructor; discriminate.
Defined.

(** For [Foo ( int )] the scope string is empty and there is no
    semantic-parent reference. *)
Lemma unqualified_class_has_no_semantic_parent :
  scope_scan "Foo" (cursor_tokens unqualified_Foo) ""
  = ok ([punct "("; kw "int"; punct ")"], "")
  /\ out_of_line_semantic_parent unqualified_Foo = ok None
  /\ (forall e idx', parse_cpp_class ∅ unqualified_Foo tu = ok (e, idx') ->
                     entity_semantic_parent e = None).
Proof.
  split; [reflexivity|]. split; [reflexivity|].
  intros e idx'. vm_compute. intros [= <- _]. reflexivity.
Qed.

(** The whole parser on [A :: B :: Foo ( int )]. *)
Lemma qualified_class_has_semantic_parent :
  forall e idx', parse_cpp_class ∅ qualified_Foo tu = ok (e, idx') ->
                 entity_semantic_parent e
                 = Some {| ref_id := 20; ref_name := "A::B" |}.
Proof. intros e idx'. vm_compute. intros [= <- _]. reflexivity. Qed.


Lemma finish_registers_only_non_templates_witness :
  (is_templated template_Vec = true
   /\ clang_isCursorDefinition template_Vec = true
   /\ exists e idx',
       parse_cpp_class ∅ template_Vec tu = ok (e, idx')
       /\ idx' = index_after_members ∅ template_Vec
       /\ idx' !! get_entity_id template_Vec = None)
  /\ (is_templated qualified_Foo = false
      /\ exists e idx',
          parse_cpp_class ∅ qualified_Foo tu = ok (e, idx')
          /\ idx' !! get_entity_id qualified_Foo = Some e).
Proof.
  split.
  - split; [reflexivity|]. split; [reflexivity|].
    pose proof (finish_registers_only_non_templates ∅ template_Vec tu) as T.
    destruct (parse_cpp_class ∅ template_Vec tu) as [[e idx']|f] eqn:E.
    + exists e, idx'. destruct (T e idx' eq_refl) as [T1 _].
      destruct (T1 eq_refl) as [Hidx Hl].
      split; [reflexivity|]. split; [exact Hidx|].
      rewrite Hl; [reflexivity|].
      intros child i [<-|[<-|[]]]; apply lookup_insert_ne; discriminate.
    + vm_compute in E. discriminate E.
  - split; [reflexivity|].
    pose proof (finish_registers_only_non_templates ∅ qualified_Foo tu) as T.
    destruct (parse_cpp_class ∅ qualified_Foo tu) as [[e idx']|f] eqn:E.
    + exists e, idx'. destruct (T e idx' eq_refl) as [_ T2].
      split; [reflexivity|]. apply T2; reflexivity.
    + vm_compute in E. discriminate E.
Defined.



Lemma friend_class_is_finished_as_declaration_witness :
  clang_isCursorDefinition befriended_Foo = true
  /\ parse_cpp_class ∅ befriended_Foo friend_decl <> fatal unexpected_token
  /\ (forall (e : cpp_entity string) idx',
         parse_cpp_class ∅ befriended_Foo friend_decl = ok (e, idx') ->
         entity_semantic_parent e = None
         /\ entity_is_definition e = Some false).
Proof.
  split; [reflexivity|].
  exact (proj2 (friend_class_is_finished_as_declaration
                  ∅ befriended_Foo friend_decl eq_refl)).
Defined.

Lemma declaration_is_not_definition_and_has_no_children_witness :
  exists e idx',
    parse_cpp_class ∅ forward_Fwd tu = ok (e, idx')
    /\ entity_is_definition e = Some false
    /\ entity_children e = [].
Proof.
  pose proof (declaration_is_not_definition_and_has_no_children
                ∅ forward_Fwd tu) as T.
  destruct (parse_cpp_class ∅ forward_Fwd tu) as [[e idx']|f] eqn:E.
  - exists e, idx'. destruct (T e idx' (or_introl eq_refl) eq_refl) as (_ & Hd & Hc & _).
    split; [reflexivity|]. split; assumption.
  - vm_compute in E. discriminate E.
Defined.

Lemma invalid_provider_values_are_fatal_witness :
  parse_cpp_class ∅ not_a_class tu = fatal unreachable_state
  /\ parse_cpp_class ∅ class_with_invalid_access tu = fatal unreachable_state.
Proof.
  split.
  - refine (proj1 (proj2 (proj2 (invalid_provider_values_are_fatal
                                   ∅ not_a_class tu null [] []))) _).
    reflexivity.
  - refine (proj1 (proj2 (proj2 (proj2 (invalid_provider_values_are_fatal
              ∅ class_with_invalid_access tu
              (access_spec 31 CX_CXXInvalidAccessSpecifier)
              [access_spec 30 CX_CXXPublic] [base_full])))) _ _ _ _ _ _ _).
    + reflexivity.
    + left. reflexivity.
    + reflexivity.
    + reflexivity.
    + reflexivity.
    + reflexivity.
    + repeat constructor. discriminate.
Defined.


(** The bases of the finished class are in the order of the base
    specifiers met, each with the access value the query reported. *)
Lemma bases_keep_source_order :
  forall e idx',
    parse_cpp_class ∅ (class_D CXCursor_StructDecl
                         [base_B CX_CXXPublic; base_full;
                          access_spec 30 CX_CXXPrivate]) tu = ok (e, idx') ->
    map (fun base => (base_name base, base_access base, base_is_virtual base))
        (entity_base_classes e)
    = [("B", cpp_public, false); ("ns::B", cpp_protected, true)].
Proof. intros e idx'. vm_compute. intros [= <- _]. reflexivity. Qed.

End OnScriptedCursors.

End ClassParserFacts.

(** ** Further properties of the code generator protocol *)

Module CodeGenExtra.
Import CodeGen CodeGenMore.

Section Recorder.
Context {cpp_entity cpp_entity_id : Type}.
Implicit Types (policy : cpp_entity -> synopsis_options)
         (log : list (call cpp_entity cpp_entity_id)).

Lemma recorder_operation policy (e : option cpp_entity) opts
      (op : @operation cpp_entity_id) log :
  opts <> exclude ->
  run_operation {| gen_ := recorder policy; e_ := e; options_ := opts |} op log
  = log ++ calls_of_operation op.
Proof.
  intros Hopts. destruct opts; [congruence| |];
    destruct op as [[]|[]|]; cbn -[app]; rewrite <- ?app_assoc; reflexivity.
Qed.

Lemma recorder_operations policy (e : option cpp_entity) opts
      (ops : list (@operation cpp_entity_id)) log :
  opts <> exclude ->
  run_operations {| gen_ := recorder policy; e_ := e; options_ := opts |} ops log
  = log ++ flat_map calls_of_operation ops.
Proof.
  intros Hopts. unfold run_operations. revert log.
  induction ops as [|op ops IH]; intros log; simpl.
  - symmetry. apply app_nil_r.
  - rewrite recorder_operation by exact Hopts. rewrite IH, <- app_assoc. reflexivity.
Qed.

(** X1. The virtual calls of the whole life of an [output] object whose
    hook does not return [exclude], as the generator that logs every call
    sees them: first the hook ([on_container_begin] for a container,
    [on_leaf] otherwise), then the calls of the operations in the order
    they are made ([indent] calling [do_indent] before
    [do_write_newline]), and last, for a container only, one
    [on_container_end] with the same entity. A leaf never gets
    [on_container_end]. *)
Theorem lifetime_calls_are_bracketed
        policy (e : cpp_entity) (is_container : bool)
        (ops : list (@operation cpp_entity_id)) :
  policy e <> exclude ->
  recorded policy e is_container ops
  = (if is_container then [call_on_container_begin e] else [call_on_leaf e])
    ++ flat_map calls_of_operation ops
    ++ (if is_container then [call_on_container_end e] else []).
Proof.
  intros Hpol. unfold recorded, output_lifetime, output_ctor.
  destruct is_container; simpl.
  - rewrite recorder_operations by exact Hpol.
    unfold output_dtor, operator_bool. simpl.
    destruct (policy e); [congruence| |]; simpl; reflexivity.
  - rewrite recorder_operations by exact Hpol.
    unfold output_dtor, operator_bool. simpl. rewrite app_nil_r.
    destruct (policy e); reflexivity.
Qed.
End Recorder.

Lemma lifetime_calls_are_bracketed_witness :
  recorded (cpp_entity := string) (cpp_entity_id := N)
           (fun _ => declaration) "C" true
           [op_shl (keyword "class"); op_indent true; op_unindent]
  = [call_on_container_begin "C"; call_do_write_keyword "class";
     call_do_indent; call_do_write_newline; call_do_unindent;
     call_on_container_end "C"].
Proof.
  refine (lifetime_calls_are_bracketed
            (cpp_entity := string) (cpp_entity_id := N)
            (fun _ => declaration) "C" true
            [op_shl (keyword "class"); op_indent true; op_unindent] _).
  discriminate.
Defined.

Section Outputs.
Context {cpp_entity cpp_entity_id B : Type}.
Implicit Types (g : code_generator cpp_entity cpp_entity_id B) (st : B).

(** X2. A generator that overrides none of the three hooks excludes
    nothing: whatever the entity, the [output] object it is given is not
    excluded and asks for the definition, and its whole life changes the
    state of the generator by the operations alone, the construction and
    the destruction leaving it as it is. *)
Theorem inherited_hooks_exclude_nothing
        g (e : cpp_entity) (is_container : bool)
        (ops : list (@operation cpp_entity_id)) st :
  override_on_container_begin B g = None ->
  override_on_leaf B g = None ->
  override_on_container_end B g = None ->
  output_ctor g e is_container st
  = ({| gen_ := g; e_ := if is_container then Some e else None;
        options_ := definition |}, st)
  /\ operator_bool (output_ctor g e is_container st).1 = true
  /\ generate_definition (output_ctor g e is_container st).1 = true
  /\ output_lifetime g e is_container ops st
     = run_operations {| gen_ := g; e_ := if is_container then Some e else None;
                         options_ := definition |} ops st.
Proof.
  intros Hb Hl He.
  assert (Hctor : output_ctor g e is_container st
                  = ({| gen_ := g; e_ := if is_container then Some e else None;
                        options_ := definition |}, st)).
  { unfold output_ctor, on_container_begin, on_leaf. rewrite Hb, Hl.
    destruct is_container; reflexivity. }
  split; [exact Hctor|]. rewrite Hctor. split; [reflexivity|]. split; [reflexivity|].
  unfold output_lifetime. rewrite Hctor.
  unfold output_dtor, on_container_end. simpl. rewrite He.
  destruct is_container; reflexivity.
Qed.

(** X3. The operations of an [output] object do not tell [declaration]
    from [definition]: two objects over the same generator and entity,
    one with each option, run every sequence of operations and their
    destructor to the same state. Only [generate_definition] differs. *)
Theorem declaration_and_definition_write_alike
        g (e : option cpp_entity) (ops : list (@operation cpp_entity_id)) st :
  let o1 := {| gen_ := g; e_ := e; options_ := declaration |} in
  let o2 := {| gen_ := g; e_ := e; options_ := definition |} in
  run_operations o1 ops st = run_operations o2 ops st
  /\ output_dtor o1 (run_operations o1 ops st) = output_dtor o2 (run_operations o2 ops st)
  /\ generate_definition o1 = false
  /\ generate_definition o2 = true.
Proof.
  intros o1 o2.
  assert (H : run_operations o1 ops st = run_operations o2 ops st).
  { unfold run_operations. revert st.
    induction ops as [|op ops IH]; intros st; simpl; [reflexivity|].
    replace (run_operation o1 op st) with (run_operation o2 op st)
      by (destruct op; reflexivity).
    apply IH. }
  split; [exact H|]. rewrite H. repeat split.
Qed.
End Outputs.

Lemma inherited_hooks_exclude_nothing_witness :
  output_lifetime (appender (cpp_entity := string) (cpp_entity_id := N)) "C" true
                  [op_shl (keyword "class"); op_shl whitespace;
                   op_shl (identifier "C")] ""
  = "class C".
Proof.
  refine (eq_trans
            (proj2 (proj2 (proj2
               (inherited_hooks_exclude_nothing
                  (appender (cpp_entity := string) (cpp_entity_id := N)) "C" true
                  [op_shl (keyword "class"); op_shl whitespace;
                   op_shl (identifier "C")] "" eq_refl eq_refl eq_refl)))) _).
  reflexivity.
Defined.

Section Backends.
Context {cpp_entity cpp_entity_id : Type}.

Lemma appender_operation (e : option cpp_entity) opts
      (op : @operation cpp_entity_id) (st : string) :
  opts <> exclude ->
  run_operation {| gen_ := appender; e_ := e; options_ := opts |} op st
  = st +:+ operation_text op.
Proof.
  intros Hopts. destruct opts; [congruence| |];
    destruct op as [[]|[]|]; cbn -[String.append];
    rewrite ?ClassParserFacts.append_empty_r; reflexivity.
Qed.

(** X4. With a backend that implements only the pure virtual functions
    and appends each token sequence to its text, the text after any
    sequence of operations on an [output] object that is not excluded is
    the text before followed by the texts of the operations in order
    (an item's text, an end-of-line for [newl] and for [indent] with a
    newline, a space for [whitespace], nothing for the rest): the token
    class of an item makes no difference. An excluded object leaves the
    text as it is. *)
Theorem appender_writes_the_texts_in_order
        (e : option cpp_entity) (opts : synopsis_options)
        (ops : list (@operation cpp_entity_id)) (st : string) :
  run_operations {| gen_ := appender; e_ := e; options_ := opts |} ops st
  = match opts with
    | exclude => st
    | _ => st +:+ operations_text ops
    end.
Proof.
  assert (Hrun : opts <> exclude ->
                 run_operations {| gen_ := appender; e_ := e; options_ := opts |} ops st
                 = st +:+ operations_text ops).
  { intros Hopts. unfold run_operations. revert st.
    induction ops as [|op ops IH]; intros st; simpl.
    - symmetry. apply ClassParserFacts.append_empty_r.
    - rewrite appender_operation by exact Hopts.
      rewrite IH. apply ClassParserFacts.append_assoc. }
  destruct opts; [|apply Hrun; discriminate..].
  apply CodeGenFacts.run_operations_excluded. reflexivity.
Qed.

Lemma line_counter_operation_calls (e : option cpp_entity) opts
      (op : @operation cpp_entity_id) (st : counted) :
  opts <> exclude ->
  newline_calls (run_operation {| gen_ := line_counter; e_ := e; options_ := opts |} op st)
  = newline_calls st + (if emits_newline op then 1 else 0).
Proof.
  intros Hopts. destruct opts; [congruence| |];
    destruct op as [[]|[]|]; cbn; lia.
Qed.

(** X5. [do_write_newline] is called once for each [newl] streamed and
    once for each [indent] that asks for a newline, and by nothing else:
    after any sequence of operations on an [output] object that is not
    excluded, the line counting backend has counted as many calls more as
    there are such operations, whatever the texts of the other items. An
    excluded object adds none. *)
Theorem newline_calls_are_the_newline_operations
        (e : option cpp_entity) (opts : synopsis_options)
        (ops : list (@operation cpp_entity_id)) (st : counted) :
  newline_calls
    (run_operations {| gen_ := line_counter; e_ := e; options_ := opts |} ops st)
  = newline_calls st
    + match opts with
      | exclude => 0
      | _ => length (List.filter emits_newline ops)
      end.
Proof.
  assert (Hrun : opts <> exclude ->
                 newline_calls
                   (run_operations {| gen_ := line_counter; e_ := e; options_ := opts |}
                                   ops st)
                 = newline_calls st + length (List.filter emits_newline ops)).
  { intros Hopts. unfold run_operations. revert st.
    induction ops as [|op ops IH]; intros st; simpl; [lia|].
    rewrite IH, line_counter_operation_calls by exact Hopts.
    destruct (emits_newline op); simpl; lia. }
  destruct opts; [|apply Hrun; discriminate..].
  rewrite CodeGenFacts.run_operations_excluded by reflexivity. lia.
Qed.
End Backends.

(** *** [string_view] *)

Section StringViews.
Import StringView.

Lemma strlen_c_str_of (body : string) :
  exists n,
    strlen (c_str_of body) = Some n
    /\ n <= String.length body
    /\ (n = String.length body <-> Str.count NUL body = 0)
    /\ (forall i, i < n -> String.get i (c_str_of body) = String.get i body)
    /\ String.get n (c_str_of body) = Some NUL.
Proof.
  induction body as [|a body (n & Hn & Hle & Hiff & Hget & Hnul)].
  - exists 0. repeat split; try reflexivity; try lia.
  - change (c_str_of (String a body)) with (String a (c_str_of body)).
    simpl. destruct (Ascii.eqb a NUL) eqn:E.
    + exists 0. apply Ascii.eqb_eq in E as ->.
      repeat split; try lia; try discriminate.
    + rewrite Hn. exists (S n). simpl.
      split; [reflexivity|]. split; [lia|]. split; [simpl; lia|].
      split; [|exact Hnul].
      intros [|i] Hi; [reflexivity|]. apply Hget. lia.
Qed.

(** X6. The view made from a [std::string] has the length of the string,
    embedded [NUL]s counted, and points to its characters followed by the
    terminating [NUL]. The view made from the pointer to the same
    characters has the length [strlen] finds, which is never more, and is
    as much exactly when the characters hold no [NUL]. Below that length
    both views read the same characters with [operator[]], those of the
    string; at that length, which [operator[]] does not test, the view
    made from the pointer reads a [NUL]. *)
Theorem string_view_lengths (body : string) :
  length (of_std_string body) = String.length body
  /\ c_str (of_std_string body) = c_str_of body
  /\ exists v,
      of_c_str (c_str_of body) = Some v
      /\ c_str v = c_str_of body
      /\ length v <= String.length body
      /\ (length v = String.length body <-> Str.count NUL body = 0)
      /\ (forall i, i < length v ->
                    at_index v i = String.get i body
                    /\ at_index (of_std_string body) i = String.get i body)
      /\ at_index v (length v) = Some NUL.
Proof.
  split; [reflexivity|]. split; [reflexivity|].
  destruct (strlen_c_str_of body) as (n & Hn & Hle & Hiff & Hget & Hnul).
  exists {| str_ := c_str_of body; length_ := n |}.
  split; [unfold of_c_str; rewrite Hn; reflexivity|].
  split; [reflexivity|]. split; [exact Hle|]. split; [exact Hiff|].
  split.
  - intros i Hi. unfold length in Hi. simpl in Hi. unfold at_index. simpl.
    split; apply Hget, Hi.
  - exact Hnul.
Qed.
End StringViews.

End CodeGenExtra.

(** ** Further properties of the class parser *)

Module ClassParserExtra.
Import ClassParser ClassParserMore ClassParserFacts.

Section Parser.
Context {cpp_type : Type} {LC : libclang} {PF : parse_functions (cpp_type := cpp_type)}.
Implicit Types (cur parent_cur child : CXCursor)
         (idx : gmap cpp_entity_id (cpp_entity cpp_type))
         (b : builder cpp_type).

(** *** The callback, kind by kind *)

Lemma handled_kind_false (kind : CXCursorKind) :
  is_handled_kind kind = false ->
  bool_decide (kind = CXCursor_CXXAccessSpecifier) = false
  /\ bool_decide (kind = CXCursor_CXXBaseSpecifier) = false
  /\ bool_decide (kind = CXCursor_CXXFinalAttr) = false.
Proof.
  unfold is_handled_kind. intros H.
  apply orb_false_elim in H as [H H3]. apply orb_false_elim in H as [H1 H2].
  tauto.
Qed.

Lemma visit_child_ignored cur child
      (acc : builder cpp_type * gmap cpp_entity_id (cpp_entity cpp_type)) :
  is_handled_kind (clang_getCursorKind child) = false ->
  is_ignored_kind (clang_getCursorKind child) = true ->
  visit_child cur acc child = ok acc.
Proof.
  intros Hh Hi. destruct acc as [b idx].
  destruct (handled_kind_false _ Hh) as (H1 & H2 & H3).
  unfold visit_child. rewrite H1, H2, H3.
  unfold is_ignored_kind in Hi. rewrite Hi. reflexivity.
Qed.

Lemma visit_child_parsed cur child b idx :
  is_handled_kind (clang_getCursorKind child) = false ->
  is_ignored_kind (clang_getCursorKind child) = false ->
  visit_child cur (b, idx) child
  = ok (match (parse_entity idx child).1 with
        | Some entity => builder_add_child b entity
        | None => b
        end, (parse_entity idx child).2).
Proof.
  intros Hh Hi.
  destruct (handled_kind_false _ Hh) as (H1 & H2 & H3).
  unfold visit_child. rewrite H1, H2, H3.
  unfold is_ignored_kind in Hi. rewrite Hi.
  destruct (parse_entity idx child) as [[entity|] idx']; reflexivity.
Qed.

Lemma visit_children_ignored cur (childs : list CXCursor)
      (acc : builder cpp_type * gmap cpp_entity_id (cpp_entity cpp_type)) :
  Forall (fun c => is_handled_kind (clang_getCursorKind c) = false
                   /\ is_ignored_kind (clang_getCursorKind c) = true) childs ->
  visit_children cur childs acc = ok acc.
Proof.
  intros Hall. induction Hall as [|c childs [Hh Hi] _ IH]; [reflexivity|].
  cbn [visit_children]. rewrite visit_child_ignored by assumption. exact IH.
Qed.

(** X7. Children whose kind is a template parameter, a parameter
    declaration, an unexposed attribute, or what the provider classes as
    an expression or a reference, and is none of the three kinds the
    callback handles itself, change neither the builder nor the index,
    and the entity parser is not asked about them: for a class that is
    not out of line and has only such children, the traversal hands back
    the builder with the comment set and the index as given. The three
    handled kinds are tested first: a base specifier is added as a base
    even when the provider classes its kind as a reference. *)
Theorem ignored_children_change_nothing idx b cur :
  clang_equalCursors (clang_getCursorSemanticParent cur)
                     (clang_getCursorLexicalParent cur) = true ->
  Forall (fun c => is_handled_kind (clang_getCursorKind c) = false
                   /\ is_ignored_kind (clang_getCursorKind c) = true)
         (cursor_children cur) ->
  parse_members idx b cur
  = ok (builder_set_comment b (comments_match cur), None, idx)
  /\ index_after_members idx cur = idx
  /\ (forall child b0 idx0,
         clang_getCursorKind child = CXCursor_CXXBaseSpecifier ->
         visit_child cur (b0, idx0) child
         = (b' ← add_base_class b0 child cur; ok (b', idx0))).
Proof.
  intros Heq Hall.
  assert (Hm : forall b1, parse_members idx b1 cur
                          = ok (builder_set_comment b1 (comments_match cur), None, idx)).
  { intros b1. unfold parse_members. rewrite Heq. simpl.
    rewrite visit_children_ignored by exact Hall. reflexivity. }
  split; [apply Hm|]. split.
  - unfold index_after_members.
    destruct (make_class_builder cur) as [b1|f]; simpl; [|reflexivity].
    rewrite Hm. reflexivity.
  - intros child b0 idx0 Hk. unfold visit_child. rewrite Hk. reflexivity.
Qed.

Lemma add_base_class_ok b child cur b' :
  add_base_class b child cur = ok b' ->
  exists a name,
    convert_access child = ok a
    /\ b' = builder_base_class b name (parse_type cur (clang_getCursorType child))
                               a (clang_isVirtualBase child).
Proof.
  unfold add_base_class. intros H.
  apply bind_ok in H as (u & _ & H).
  apply bind_ok in H as (a & Ha & H).
  apply bind_ok in H as (stream & _ & [= <-]).
  exists a. eexists. split; [exact Ha | reflexivity].
Qed.

Lemma add_access_specifier_ok b child b' :
  add_access_specifier b child = ok b' ->
  exists a, convert_access child = ok a /\ b' = builder_access_specifier b a.
Proof.
  unfold add_access_specifier. intros H.
  apply bind_ok in H as (u & _ & H).
  apply bind_ok in H as (a & Ha & [= <-]).
  exists a. split; [exact Ha | reflexivity].
Qed.

Lemma visit_child_ok cur child b idx b' idx' :
  visit_child cur (b, idx) child = ok (b', idx') ->
  visited cur child b idx b' idx'.
Proof.
  destruct (bool_decide (clang_getCursorKind child = CXCursor_CXXAccessSpecifier)) eqn:E1.
  { unfold visit_child. rewrite E1. apply bool_decide_eq_true_1 in E1.
    intros H. apply bind_ok in H as (b1 & H1 & [= <- <-]).
    apply add_access_specifier_ok in H1 as (a & Ha & ->).
    eapply visited_access; eauto. }
  destruct (bool_decide (clang_getCursorKind child = CXCursor_CXXBaseSpecifier)) eqn:E2.
  { unfold visit_child. rewrite E1, E2. apply bool_decide_eq_true_1 in E2.
    intros H. apply bind_ok in H as (b1 & H1 & [= <- <-]).
    apply add_base_class_ok in H1 as (a & name & Ha & ->).
    eapply visited_base; eauto. }
  destruct (bool_decide (clang_getCursorKind child = CXCursor_CXXFinalAttr)) eqn:E3.
  { unfold visit_child. rewrite E1, E2, E3. apply bool_decide_eq_true_1 in E3.
    intros [= <- <-]. apply visited_final; auto. }
  assert (Hh : is_handled_kind (clang_getCursorKind child) = false).
  { unfold is_handled_kind. rewrite E1, E2, E3. reflexivity. }
  destruct (is_ignored_kind (clang_getCursorKind child)) eqn:Hi.
  - rewrite visit_child_ignored by assumption. intros [= <- <-].
    apply visited_ignored; auto.
  - rewrite visit_child_parsed by assumption. intros [= <- <-].
    apply visited_parsed; auto.
Qed.

(** What a successful [parse_cpp_class] has done. *)
Lemma parse_cpp_class_ok idx cur parent_cur (e : cpp_entity cpp_type)
      (idx' : gmap cpp_entity_id (cpp_entity cpp_type)) :
  parse_cpp_class idx cur parent_cur = ok (e, idx') ->
  exists k,
    parse_class_kind cur = ok k
    /\ ((is_friend parent_cur = true
         /\ e = finish_declaration (builder_new (get_cursor_name cur) k)
                                   (get_entity_id cur))
        \/ (is_friend parent_cur = false
            /\ exists sp b' idx1,
                (if negb (clang_equalCursors (clang_getCursorSemanticParent cur)
                                             (clang_getCursorLexicalParent cur))
                 then out_of_line_semantic_parent cur else ok None) = ok sp
                /\ visit_children cur (cursor_children cur)
                     (builder_set_comment (builder_new (get_cursor_name cur) k)
                                          (comments_match cur), idx) = ok (b', idx1)
                /\ e = if clang_isCursorDefinition cur
                       then finished_definition b'
                              (if is_templated cur then None
                               else Some (get_entity_id cur)) sp
                       else finish_declaration b' (get_entity_id cur))).
Proof.
  intros H. destruct (is_friend parent_cur) eqn:Hf.
  - rewrite parse_cpp_class_friend in H by exact Hf.
    apply bind_ok in H as (b & Hb & H).
    unfold make_class_builder in Hb. apply bind_ok in Hb as (k & Hk & [= <-]).
    exists k. split; [exact Hk|]. left. split; [reflexivity|].
    destruct (is_templated cur); injection H as <- _; reflexivity.
  - rewrite parse_cpp_class_not_friend in H by exact Hf.
    apply bind_ok in H as (b & Hb & H).
    unfold make_class_builder in Hb. apply bind_ok in Hb as (k & Hk & [= <-]).
    apply bind_ok in H as ([[b' sp] idx1] & Hm & H).
    unfold parse_members in Hm.
    apply bind_ok in Hm as (sp0 & Hsp & Hm).
    apply bind_ok in Hm as ([b1 idx2] & Hv & [= <- <- <-]).
    exists k. split; [exact Hk|]. right. split; [reflexivity|].
    exists sp0, b1, idx2. split; [exact Hsp|]. split; [exact Hv|].
    destruct (clang_isCursorDefinition cur), (is_templated cur);
      injection H as <- _; reflexivity.
Qed.

Lemma visit_children_ok_cons cur child (childs : list CXCursor) b idx b' idx' :
  visit_children cur (child :: childs) (b, idx) = ok (b', idx') ->
  exists b1 idx1,
    visited cur child b idx b1 idx1
    /\ visit_children cur childs (b1, idx1) = ok (b', idx').
Proof.
  cbn [visit_children]. intros H.
  apply bind_ok in H as ([b1 idx1] & H1 & H).
  exists b1, idx1. split; [apply visit_child_ok, H1 | exact H].
Qed.

(** *** What the traversal keeps and what it adds *)

Lemma visit_children_header cur (childs : list CXCursor) b idx b' idx' :
  visit_children cur childs (b, idx) = ok (b', idx') ->
  b_name b' = b_name b /\ b_kind b' = b_kind b /\ b_comment b' = b_comment b
  /\ b_final b' = b_final b || existsb is_final_attribute childs.
Proof.
  revert b idx. induction childs as [|child childs IH]; intros b idx.
  - intros [= <- _]. rewrite orb_false_r. tauto.
  - intros H. apply visit_children_ok_cons in H as (b1 & idx1 & Hv & H).
    destruct (IH _ _ H) as (Hn & Hk & Hc & Hf).
    rewrite Hn, Hk, Hc, Hf. cbn [existsb]. unfold is_final_attribute at 2.
    destruct Hv as [a Hkind _ -> _ | a name Hkind _ -> _ | Hkind -> _
                    | Hh _ -> _ | Hh _ -> _]; simpl.
    + rewrite Hkind. tauto.
    + rewrite Hkind. tauto.
    + rewrite Hkind. simpl. rewrite orb_true_r. tauto.
    + apply handled_kind_false in Hh as (_ & _ & ->). tauto.
    + apply handled_kind_false in Hh as (_ & _ & ->).
      destruct (parse_entity idx child).1; tauto.
Qed.

Lemma visit_children_bases cur (childs : list CXCursor) b idx b' idx' :
  visit_children cur childs (b, idx) = ok (b', idx') ->
  exists new,
    b_bases b' = b_bases b ++ new
    /\ Forall2 (base_of cur) new (List.filter is_base_specifier childs).
Proof.
  revert b idx. induction childs as [|child childs IH]; intros b idx.
  - intros [= <- _]. exists []. split; [symmetry; apply app_nil_r | constructor].
  - intros H. apply visit_children_ok_cons in H as (b1 & idx1 & Hv & H).
    destruct (IH _ _ H) as (new & Hb & Hall).
    cbn [List.filter]. unfold is_base_specifier at 1.
    destruct Hv as [a Hkind _ -> _ | a name Hkind Ha -> _ | Hkind -> _
                    | Hh _ -> _ | Hh _ -> _].
    + rewrite Hkind. exists new. split; assumption.
    + rewrite Hkind. simpl. eexists (_ :: new). split.
      * rewrite Hb. simpl. rewrite <- app_assoc. reflexivity.
      * constructor; [|exact Hall]. repeat split. exact Ha.
    + rewrite Hkind. exists new. split; assumption.
    + apply handled_kind_false in Hh as (_ & -> & _). exists new. split; assumption.
    + apply handled_kind_false in Hh as (_ & -> & _). exists new.
      split; [|exact Hall]. rewrite Hb.
      destruct (parse_entity idx child).1; reflexivity.
Qed.

Lemma visit_children_children cur (childs : list CXCursor) b idx b' idx' :
  visit_children cur childs (b, idx) = ok (b', idx') ->
  length (b_children b') <= length (b_children b) + length childs
  /\ forall a entity,
      In (a, entity) (b_children b') ->
      In (a, entity) (b_children b)
      \/ exists child i,
          In child childs
          /\ is_handled_kind (clang_getCursorKind child) = false
          /\ is_ignored_kind (clang_getCursorKind child) = false
          /\ (parse_entity i child).1 = Some entity.
Proof.
  revert b idx. induction childs as [|child childs IH]; intros b idx.
  - intros [= <- _]. split; [simpl; lia | tauto].
  - intros H. apply visit_children_ok_cons in H as (b1 & idx1 & Hv & H).
    destruct (IH _ _ H) as (Hlen & Hin).
    assert (Hlater : forall entity : cpp_entity cpp_type,
               (exists c i, In c childs
                            /\ is_handled_kind (clang_getCursorKind c) = false
                            /\ is_ignored_kind (clang_getCursorKind c) = false
                            /\ (parse_entity i c).1 = Some entity) ->
               exists c i, In c (child :: childs)
                           /\ is_handled_kind (clang_getCursorKind c) = false
                           /\ is_ignored_kind (clang_getCursorKind c) = false
                           /\ (parse_entity i c).1 = Some entity).
    { intros entity (c & i & Hc & Hrest). exists c, i. split; [right; exact Hc | exact Hrest]. }
    destruct Hv as [a Hkind _ -> _ | a name Hkind _ -> _ | Hkind -> _
                    | Hh _ -> _ | Hh Hi -> _]; simpl in Hlen, Hin;
      try (split; [simpl; lia |];
           intros a' entity Hx; destruct (Hin a' entity Hx) as [Hold|Hnew];
           [left; exact Hold | right; apply Hlater, Hnew]).
    destruct (parse_entity idx child).1 as [ent|] eqn:Hp; simpl in Hlen, Hin.
    + split; [rewrite length_app in Hlen; simpl in *; lia|].
      intros a' entity Hx. destruct (Hin a' entity Hx) as [Hold|Hnew].
      * apply in_app_or in Hold as [Hold|[[= _ <-]|[]]]; [left; exact Hold|].
        right. exists child, idx. split; [left; reflexivity|]. tauto.
      * right. apply Hlater, Hnew.
    + split; [simpl; lia|].
      intros a' entity Hx. destruct (Hin a' entity Hx) as [Hold|Hnew];
        [left; exact Hold | right; apply Hlater, Hnew].
Qed.

(** *** The finished entity *)

(** X8. The semantic-parent reference of the class [parse_cpp_class]
    hands over is the one the scope scan produced when the cursor is not
    a friend, is a definition and has a semantic parent other than its
    lexical parent; in every other case there is none: for a class that
    is not out of line the scan is not run, and for a declaration its
    result is not handed to the finishing operation. *)
Theorem semantic_parent_of_the_finished_class
        idx cur parent_cur (e : cpp_entity cpp_type)
        (idx' : gmap cpp_entity_id (cpp_entity cpp_type)) :
  parse_cpp_class idx cur parent_cur = ok (e, idx') ->
  entity_semantic_parent e
  = if negb (is_friend parent_cur) && clang_isCursorDefinition cur
       && negb (clang_equalCursors (clang_getCursorSemanticParent cur)
                                   (clang_getCursorLexicalParent cur))
    then match out_of_line_semantic_parent cur with
         | ok sp => sp
         | fatal _ => None
         end
    else None.
Proof.
  intros H. apply parse_cpp_class_ok in H as (k & _ & [[Hf ->] | (Hf & sp & b' & idx1 & Hsp & _ & ->)]).
  - rewrite Hf. reflexivity.
  - rewrite Hf. simpl.
    destruct (clang_isCursorDefinition cur); [|reflexivity]. simpl.
    destruct (clang_equalCursors _ _); simpl in *.
    + injection Hsp as <-. reflexivity.
    + rewrite Hsp. reflexivity.
Qed.

(** X10. The finished class is final exactly when the cursor is not a
    friend and one of its children is a final attribute. *)
Theorem final_iff_final_attribute_child
        idx cur parent_cur (e : cpp_entity cpp_type)
        (idx' : gmap cpp_entity_id (cpp_entity cpp_type)) :
  parse_cpp_class idx cur parent_cur = ok (e, idx') ->
  entity_is_final e
  = negb (is_friend parent_cur)
    && existsb is_final_attribute (cursor_children cur).
Proof.
  intros H. apply parse_cpp_class_ok in H as (k & _ & [[Hf ->] | (Hf & sp & b' & idx1 & _ & Hv & ->)]).
  - rewrite Hf. reflexivity.
  - rewrite Hf. apply visit_children_header in Hv as (_ & _ & _ & Hfin).
    destruct (clang_isCursorDefinition cur); simpl; exact Hfin.
Qed.

(** X12. The finished class carries the name of the cursor as it is, with
    its template argument list if it has one (only the scope scan cuts
    the name), the class kind [parse_class_kind] found, and, unless the
    cursor is a friend, the comment the comment matcher gave: no later
    step changes any of them. *)
Theorem name_kind_and_comment_of_the_finished_class
        idx cur parent_cur (e : cpp_entity cpp_type)
        (idx' : gmap cpp_entity_id (cpp_entity cpp_type)) :
  parse_cpp_class idx cur parent_cur = ok (e, idx') ->
  entity_name e = get_cursor_name cur
  /\ (exists k, parse_class_kind cur = ok k /\ entity_class_kind e = Some k)
  /\ entity_comment e = if is_friend parent_cur then None else comments_match cur.
Proof.
  intros H. apply parse_cpp_class_ok in H as (k & Hk & [[Hf ->] | (Hf & sp & b' & idx1 & _ & Hv & ->)]).
  - rewrite Hf. split; [reflexivity|]. split; [|reflexivity].
    exists k. split; [exact Hk | reflexivity].
  - rewrite Hf. apply visit_children_header in Hv as (Hn & Hkind & Hc & _).
    destruct (clang_isCursorDefinition cur); simpl;
      (split; [exact Hn|]); (split; [|exact Hc]);
      exists k; (split; [exact Hk|]); rewrite Hkind; reflexivity.
Qed.

(** X13. Every child of the finished class is an entity the entity
    parser returned for one of the children of the cursor, one whose kind
    is neither handled by the callback itself nor ignored; so the class
    has at most as many children as the cursor, and a friend or a cursor
    that is no definition gets none. *)
Theorem children_come_from_the_entity_parser
        idx cur parent_cur (e : cpp_entity cpp_type)
        (idx' : gmap cpp_entity_id (cpp_entity cpp_type)) :
  parse_cpp_class idx cur parent_cur = ok (e, idx') ->
  length (entity_children e) <= length (cursor_children cur)
  /\ forall a entity,
      In (a, entity) (entity_children e) ->
      is_friend parent_cur = false
      /\ clang_isCursorDefinition cur = true
      /\ exists child i,
          In child (cursor_children cur)
          /\ is_handled_kind (clang_getCursorKind child) = false
          /\ is_ignored_kind (clang_getCursorKind child) = false
          /\ (parse_entity i child).1 = Some entity.
Proof.
  intros H. apply parse_cpp_class_ok in H as (k & _ & [[Hf ->] | (Hf & sp & b' & idx1 & _ & Hv & ->)]).
  - split; [simpl; lia|]. intros a entity [].
  - apply visit_children_children in Hv as (Hlen & Hin). simpl in Hlen, Hin.
    destruct (clang_isCursorDefinition cur); simpl.
    + split; [exact Hlen|]. intros a entity Hx.
      split; [exact Hf|]. split; [reflexivity|].
      destruct (Hin a entity Hx) as [[]|Hnew]. exact Hnew.
    + split; [lia|]. intros a entity [].
Qed.

(** X14. The bases of the finished class are the base specifiers among
    the children of the cursor, one for one and in the same order, each
    with the access value the query reports for it, the virtual flag of
    the query and the type parsed from its type; a friend gets none. *)
Theorem bases_are_the_base_specifiers_in_order
        idx cur parent_cur (e : cpp_entity cpp_type)
        (idx' : gmap cpp_entity_id (cpp_entity cpp_type)) :
  parse_cpp_class idx cur parent_cur = ok (e, idx') ->
  Forall2 (base_of cur) (entity_base_classes e)
          (if is_friend parent_cur then []
           else List.filter is_base_specifier (cursor_children cur)).
Proof.
  intros H. apply parse_cpp_class_ok in H as (k & _ & [[Hf ->] | (Hf & sp & b' & idx1 & _ & Hv & ->)]).
  - rewrite Hf. constructor.
  - rewrite Hf. apply visit_children_bases in Hv as (new & Hb & Hall).
    simpl in Hb. destruct (clang_isCursorDefinition cur); simpl; rewrite Hb; exact Hall.
Qed.

(** *** Assertions *)

Lemma visit_child_never_asserts cur child b idx f :
  visit_child cur (b, idx) child = fatal f -> f <> assertion_failed.
Proof.
  destruct (bool_decide (clang_getCursorKind child = CXCursor_CXXAccessSpecifier)) eqn:E1.
  { unfold visit_child. rewrite E1. apply bool_decide_eq_true_1 in E1.
    unfold add_access_specifier, convert_access. rewrite E1. simpl.
    destruct (clang_getCXXAccessSpecifier child); simpl; try discriminate.
    intros [= <-]. discriminate. }
  destruct (bool_decide (clang_getCursorKind child = CXCursor_CXXBaseSpecifier)) eqn:E2.
  { unfold visit_child. rewrite E1, E2. apply bool_decide_eq_true_1 in E2.
    unfold add_base_class, convert_access. rewrite E2. simpl.
    destruct (clang_getCXXAccessSpecifier child); simpl;
      try (intros [= <-]; discriminate);
      (destruct (clang_isVirtualBase child); simpl; [|discriminate]);
      unfold skip; (destruct (skip_if _ _) as [[|] s1]; simpl; [discriminate|]);
      intros [= <-]; discriminate. }
  destruct (bool_decide (clang_getCursorKind child = CXCursor_CXXFinalAttr)) eqn:E3.
  { unfold visit_child. rewrite E1, E2, E3. discriminate. }
  assert (Hh : is_handled_kind (clang_getCursorKind child) = false).
  { unfold is_handled_kind. rewrite E1, E2, E3. reflexivity. }
  destruct (is_ignored_kind (clang_getCursorKind child)) eqn:Hi.
  - rewrite visit_child_ignored by assumption. discriminate.
  - rewrite visit_child_parsed by assumption. discriminate.
Qed.

Lemma visit_children_never_assert cur (childs : list CXCursor)
      (acc : builder cpp_type * gmap cpp_entity_id (cpp_entity cpp_type)) f :
  visit_children cur childs acc = fatal f -> f <> assertion_failed.
Proof.
  revert acc. induction childs as [|c childs IH]; intros [b idx]; [discriminate|].
  cbn [visit_children].
  destruct (visit_child cur (b, idx) c) as [acc1|f1] eqn:E.
  - apply IH.
  - intros [= <-]. apply (visit_child_never_asserts _ _ _ _ _ E).
Qed.

(** X11. The two assertions of the file hold wherever the functions that
    make them are called: [parse_cpp_class] never ends in a failed
    assertion, whatever the provider reports, because the callback calls
    [add_access_specifier] and [add_base_class] only after it has found
    the kind the assertion asks for. *)
Theorem assertions_never_fail idx cur parent_cur :
  parse_cpp_class idx cur parent_cur <> fatal assertion_failed
  /\ (forall b child,
         clang_getCursorKind child <> CXCursor_CXXAccessSpecifier ->
         add_access_specifier b child = fatal assertion_failed)
  /\ (forall b child,
         clang_getCursorKind child <> CXCursor_CXXBaseSpecifier ->
         add_base_class b child cur = fatal assertion_failed).
Proof.
  split; [|split].
  - destruct (is_friend parent_cur) eqn:Hf.
    + rewrite parse_cpp_class_friend by exact Hf.
      unfold make_class_builder, parse_class_kind.
      destruct (switched_kind cur); simpl; try discriminate;
        destruct (is_templated cur); discriminate.
    + rewrite parse_cpp_class_not_friend by exact Hf.
      unfold make_class_builder, parse_class_kind.
      assert (Hm : forall b, parse_members idx b cur <> fatal assertion_failed).
      { intros b. unfold parse_members.
        destruct (if negb _ then _ else _) as [sp|f1] eqn:E; simpl.
        - destruct (visit_children _ _ _) as [[b1 idx1]|f1] eqn:E1; simpl; [discriminate|].
          intros [= ->]. apply (visit_children_never_assert _ _ _ _ E1). reflexivity.
        - intros [= ->]. destruct (negb _); [|discriminate].
          apply out_of_line_fault in E. discriminate. }
      destruct (switched_kind cur); simpl; try discriminate;
        (destruct (parse_members idx _ cur) as [[[b1 sp] idx1]|f1] eqn:E; simpl;
         [destruct (clang_isCursorDefinition cur), (is_templated cur); discriminate
         | intros [= ->]; apply (Hm _ E)]).
  - intros b child Hk. unfold add_access_specifier.
    rewrite bool_decide_eq_false_2 by exact Hk. reflexivity.
  - intros b child Hk. unfold add_base_class.
    rewrite bool_decide_eq_false_2 by exact Hk. reflexivity.
Qed.

End Parser.

(** *** Where the scope scan stops *)

Section Scan.
Implicit Types (stream pre rest : token_stream) (name scope : string).

Lemma scan_with_match (n : nat) name pre t rest scope :
  length pre <= n ->
  name <> "::" ->
  token_spelling t = name ->
  Forall (fun u => token_spelling u <> name) pre ->
  match scope_scan name (pre ++ t :: rest) scope with
  | ok (stream, _) => stream = rest
  | fatal _ => False
  end.
Proof.
  intros Hlen Hname Ht. revert pre scope Hlen.
  induction n as [|n IH]; intros pre scope Hlen Hall.
  - destruct pre; [|simpl in Hlen; lia]. simpl.
    rewrite scope_scan_found by exact Ht. reflexivity.
  - destruct Hall as [|u s Hu Hs].
    { simpl. rewrite scope_scan_found by exact Ht. reflexivity. }
    rewrite scope_scan_unfold. simpl.
    apply String.eqb_neq in Hu. rewrite Hu.
    destruct Hs as [|v s' Hv Hs'].
    + simpl. rewrite Ht.
      assert (String.eqb name "::" = false) as -> by (apply String.eqb_neq, Hname).
      rewrite andb_false_r. simpl.
      apply (IH [] scope); [simpl; lia | constructor].
    + simpl in Hlen. simpl.
      match goal with |- context [andb ?x ?y] => destruct (andb x y) end; simpl.
      * apply IH; [lia | exact Hs'].
      * apply (IH (v :: s')); [simpl; lia | constructor; assumption].
Qed.

(** X15. The scope scan stops right after the first token that is
    spelled exactly like the name, whatever the tokens before it are:
    what it leaves in the stream is what follows that token (the name
    being other than the scope separator, which a segment would
    consume). *)
Theorem scan_stops_after_the_first_match name pre t rest scope :
  name <> "::" ->
  Forall (fun u => token_spelling u <> name) pre ->
  token_spelling t = name ->
  exists scope', scope_scan name (pre ++ t :: rest) scope = ok (rest, scope').
Proof.
  intros Hname Hall Ht.
  pose proof (scan_with_match (length pre) name pre t rest scope
                (le_n _) Hname Ht Hall) as H.
  destruct (scope_scan name (pre ++ t :: rest) scope) as [[stream scope']|f];
    [|contradiction].
  exists scope'. rewrite H. reflexivity.
Qed.
End Scan.

(** *** On scripted cursors *)

Section OnMoreScriptedCursors.
Import Scripted ScriptedMore.
#[local] Open Scope N_scope.

Lemma ignored_children_change_nothing_witness :
  parse_members ∅ (builder_new (cpp_type := string) "S" struct_t) only_ignored
  = ok (builder_new "S" struct_t, None, ∅)
  /\ index_after_members ∅ only_ignored = ∅.
Proof.
  destruct (ignored_children_change_nothing
              ∅ (builder_new (cpp_type := string) "S" struct_t) only_ignored)
    as (Hm & Hidx & _).
  - reflexivity.
  - repeat constructor.
  - split; [exact Hm | exact Hidx].
Defined.

Lemma semantic_parent_of_the_finished_class_witness :
  exists e idx',
    parse_cpp_class ∅ specialized_Foo tu = ok (e, idx')
    /\ entity_semantic_parent e = Some {| ref_id := 20; ref_name := "A" |}.
Proof.
  pose proof (semantic_parent_of_the_finished_class ∅ specialized_Foo tu) as T.
  destruct (parse_cpp_class ∅ specialized_Foo tu) as [[e idx']|f] eqn:E;
    [|vm_compute in E; discriminate E].
  exists e, idx'. split; [reflexivity|].
  rewrite (T e idx' eq_refl). reflexivity.
Defined.

Lemma final_iff_final_attribute_child_witness :
  exists e idx',
    parse_cpp_class ∅ final_E tu = ok (e, idx')
    /\ entity_is_final e = true.
Proof.
  pose proof (final_iff_final_attribute_child ∅ final_E tu) as T.
  destruct (parse_cpp_class ∅ final_E tu) as [[e idx']|f] eqn:E;
    [|vm_compute in E; discriminate E].
  exists e, idx'. split; [reflexivity|].
  rewrite (T e idx' eq_refl). reflexivity.
Defined.

Lemma name_kind_and_comment_of_the_finished_class_witness :
  exists e idx',
    parse_cpp_class ∅ specialized_Foo tu = ok (e, idx')
    /\ entity_name e = "Foo<int>"
    /\ unqualified_name specialized_Foo = "Foo"
    /\ entity_comment e = None.
Proof.
  pose proof (name_kind_and_comment_of_the_finished_class ∅ specialized_Foo tu) as T.
  destruct (parse_cpp_class ∅ specialized_Foo tu) as [[e idx']|f] eqn:E;
    [|vm_compute in E; discriminate E].
  exists e, idx'. split; [reflexivity|].
  destruct (T e idx' eq_refl) as (Hn & _ & Hc).
  split; [exact Hn|]. split; [reflexivity | exact Hc].
Defined.

Lemma children_come_from_the_entity_parser_witness :
  exists e idx',
    parse_cpp_class ∅ final_E tu = ok (e, idx')
    /\ (length (entity_children e) <= 5)%nat
    /\ forall a entity,
        In (a, entity) (entity_children e) ->
        exists child i,
          In child (cursor_children final_E)
          /\ (parse_entity i child).1 = Some entity.
Proof.
  pose proof (children_come_from_the_entity_parser ∅ final_E tu) as T.
  destruct (parse_cpp_class ∅ final_E tu) as [[e idx']|f] eqn:E;
    [|vm_compute in E; discriminate E].
  exists e, idx'. split; [reflexivity|].
  destruct (T e idx' eq_refl) as (Hlen & Hin).
  split; [exact Hlen|].
  intros a entity Hx.
  destruct (Hin a entity Hx) as (_ & _ & child & i & Hc & _ & _ & Hp).
  exists child, i. split; assumption.
Defined.

Lemma bases_are_the_base_specifiers_in_order_witness :
  exists e idx',
    parse_cpp_class ∅ (class_D CXCursor_StructDecl
                         [base_B CX_CXXPublic; access_spec 30 CX_CXXPrivate;
                          base_full]) tu = ok (e, idx')
    /\ Forall2 (base_of (class_D CXCursor_StructDecl
                           [base_B CX_CXXPublic; access_spec 30 CX_CXXPrivate;
                            base_full]))
               (entity_base_classes e) [base_B CX_CXXPublic; base_full].
Proof.
  pose proof (bases_are_the_base_specifiers_in_order
                ∅ (class_D CXCursor_StructDecl
                     [base_B CX_CXXPublic; access_spec 30 CX_CXXPrivate; base_full])
                tu) as T.
  destruct (parse_cpp_class ∅ _ tu) as [[e idx']|f] eqn:E;
    [|vm_compute in E; discriminate E].
  exists e, idx'. split; [reflexivity|]. exact (T e idx' eq_refl).
Defined.

Lemma scan_stops_after_the_first_match_witness :
  exists scope',
    scope_scan "Foo" [kw "class"; ident "A"; punct "::"; ident "Foo"; punct ";"] ""
    = ok ([punct ";"], scope').
Proof.
  apply (scan_stops_after_the_first_match
           "Foo" [kw "class"; ident "A"; punct "::"] (ident "Foo") [punct ";"] "").
  - discriminate.
  - repeat constructor; discriminate.
  - reflexivity.
Defined.

End OnMoreScriptedCursors.

End ClassParserExtra.
